(** * Goa land-record analysis: the CSV record reassembler and the
      free-text owners-field extractor of [analyze_plot_info.py]

    The development embeds [clean_multiline_csv], [parse_owners_raw_field]
    and the comunidade / government classification of
    [load_and_validate_data].  The regular expressions of the source are
    kept as syntax trees and run by a backtracking matcher that follows
    the priority order of Python's [re] module (leftmost match, greedy and
    lazy repetition, alternation left to right, look-ahead, one capturing
    group).

    Text is a list of 8-bit characters read as the code points 0..255.
    On this range [str.strip], [\s], [\d], [str.lower] and IGNORECASE are
    given by the tables below; code points above 255 are not modelled. *)

From Stdlib Require Import String Ascii.
From Stdlib Require Import List Bool Arith Lia NArith.
Import ListNotations.

(* ================================================================= *)
(** ** Characters and Python string primitives *)

Module PyStr.

Definition pystr := list ascii.

Definition str (s : String.string) : pystr := String.list_ascii_of_string s.
Arguments str s%_string.

Definition code (c : ascii) : N := N_of_ascii c.

Definition nl : ascii := ascii_of_N 10.
Definition cr : ascii := ascii_of_N 13.
Definition dquote : ascii := ascii_of_N 34.

(** [str.isspace] on one character, also the class [\s] of a str pattern. *)
Definition isspace (c : ascii) : bool :=
  let n := code c in
  ((9 <=? n) && (n <=? 13) || (28 <=? n) && (n <=? 32)
   || (n =? 133) || (n =? 160))%N.

(** The class [\d]. *)
Definition isdigit (c : ascii) : bool :=
  let n := code c in ((48 <=? n) && (n <=? 57))%N.

(** [str.lower] on one character. *)
Definition lower_char (c : ascii) : ascii :=
  let n := code c in
  if ((65 <=? n) && (n <=? 90)
      || (192 <=? n) && (n <=? 222) && negb (n =? 215))%N
  then ascii_of_N (n + 32) else c.

Definition lower (s : pystr) : pystr := map lower_char s.

Fixpoint lstrip (s : pystr) : pystr :=
  match s with
  | c :: s' => if isspace c then lstrip s' else s
  | [] => []
  end.

Definition rstrip (s : pystr) : pystr := rev (lstrip (rev s)).

(** [s.strip()] *)
Definition strip (s : pystr) : pystr := rstrip (lstrip s).

Fixpoint str_eqb (a b : pystr) : bool :=
  match a, b with
  | [], [] => true
  | x :: a', y :: b' => Ascii.eqb x y && str_eqb a' b'
  | _, _ => false
  end.

(** [x in xs] for a list of strings. *)
Definition str_in (x : pystr) (xs : list pystr) : bool :=
  existsb (str_eqb x) xs.

(** [s.count(c)] for a one-character needle. *)
Definition count_char (c : ascii) (s : pystr) : nat :=
  length (filter (Ascii.eqb c) s).

(** [sep.join(parts)] *)
Fixpoint join (sep : pystr) (parts : list pystr) : pystr :=
  match parts with
  | [] => []
  | [p] => p
  | p :: ps => p ++ sep ++ join sep ps
  end.

(** [s.split(c)] for a one-character separator: the current piece is
    carried in [cur]. *)
Fixpoint split_on (c : ascii) (cur : pystr) (s : pystr) : list pystr :=
  match s with
  | [] => [cur]
  | x :: s' =>
      if Ascii.eqb x c then cur :: split_on c [] s'
      else split_on c (cur ++ [x]) s'
  end.

Definition split_char (c : ascii) (s : pystr) : list pystr := split_on c [] s.

(** Truth value of a string: [if s:]. *)
Definition nonempty (s : pystr) : bool :=
  match s with [] => false | _ => true end.

(** [s[i:j]] for [0 <= i], [0 <= j]. *)
Definition slice (i j : nat) (s : pystr) : pystr := firstn (j - i) (skipn i s).

End PyStr.
Import PyStr.

(* ================================================================= *)
(** ** Regular expressions: syntax and backtracking matcher *)

Module Re.

Record flags := { ignorecase : bool; dotall : bool; multiline : bool }.

Definition no_flags := {| ignorecase := false; dotall := false; multiline := false |}.
Definition f_IS := {| ignorecase := true; dotall := true; multiline := false |}.
Definition f_I := {| ignorecase := true; dotall := false; multiline := false |}.
Definition f_ISM := {| ignorecase := true; dotall := true; multiline := true |}.

(** Members of a bracketed class. *)
Inductive citem :=
| CChar (c : ascii)
| CSpace.

(** One-character matchers. *)
Inductive atom :=
| ALit (c : ascii)
| AAny
| ASpace
| ADigit
| ASet (neg : bool) (items : list citem).

(** Patterns.  Every repetition of the source's patterns is over a
    one-character matcher with no upper bound: [a*], [a+], [a{n,}] and
    the lazy [a*?], [a+?]. *)
Inductive regex :=
| Eps
| One (a : atom)
| Seq (r1 r2 : regex)
| Alt (r1 r2 : regex)
| Rep (greedy : bool) (mn : nat) (a : atom)
| Group (r : regex)
| Look (r : regex)
| Bol
| Eol
| EndZ.

(** A literal string, and the concatenation of a list of patterns. *)
Definition lit (s : String.string) : regex :=
  fold_right (fun c r => Seq (One (ALit c)) r) Eps (str s).
Arguments lit s%_string.

Definition cat (rs : list regex) : regex := fold_right Seq Eps rs.

Definition alts (r : regex) (rs : list regex) : regex :=
  fold_left Alt rs r.

Definition char_eq (fl : flags) (x c : ascii) : bool :=
  if ignorecase fl then Ascii.eqb (lower_char c) (lower_char x)
  else Ascii.eqb c x.

Definition citem_match (fl : flags) (it : citem) (c : ascii) : bool :=
  match it with
  | CChar x => char_eq fl x c
  | CSpace => isspace c
  end.

Definition atom_match (fl : flags) (a : atom) (c : ascii) : bool :=
  match a with
  | ALit x => char_eq fl x c
  | AAny => dotall fl || negb (Ascii.eqb c nl)
  | ASpace => isspace c
  | ADigit => isdigit c
  | ASet neg items => xorb neg (existsb (fun it => citem_match fl it c) items)
  end.

(** Length of the longest prefix of [s] whose characters all match [a]. *)
Fixpoint run_len (fl : flags) (a : atom) (s : pystr) : nat :=
  match s with
  | c :: s' => if atom_match fl a c then S (run_len fl a s') else 0
  | [] => 0
  end.

(** The span of capturing group 1, when it took part in the match. *)
Definition caps := option (nat * nat).

Section Matcher.

Variable fl : flags.
Variable t : pystr.

Definition at_bol (p : nat) : bool :=
  match p with
  | 0 => true
  | S q => multiline fl &&
           match nth_error t q with Some c => Ascii.eqb c nl | None => false end
  end.

Definition at_eol (p : nat) : bool :=
  (p =? length t)
  || match nth_error t p with
     | Some c => Ascii.eqb c nl && (multiline fl || (S p =? length t))
     | None => false
     end.

(** [m r p g]: the ends (and group spans) of the matches of [r] that begin
    at position [p], in the order in which the backtracking matcher
    tries them. *)
Fixpoint m (r : regex) (p : nat) (g : caps) : list (nat * caps) :=
  match r with
  | Eps => [(p, g)]
  | One a =>
      match nth_error t p with
      | Some c => if atom_match fl a c then [(S p, g)] else []
      | None => []
      end
  | Seq r1 r2 => flat_map (fun eg => m r2 (fst eg) (snd eg)) (m r1 p g)
  | Alt r1 r2 => m r1 p g ++ m r2 p g
  | Rep greedy mn a =>
      let n := run_len fl a (skipn p t) in
      if n <? mn then []
      else
        let ends := seq (p + mn) (n - mn + 1) in
        map (fun e => (e, g)) (if greedy then rev ends else ends)
  | Group r1 => map (fun eg => (fst eg, Some (p, fst eg))) (m r1 p g)
  | Look r1 =>
      match m r1 p g with
      | [] => []
      | eg :: _ => [(p, snd eg)]
      end
  | Bol => if at_bol p then [(p, g)] else []
  | Eol => if at_eol p then [(p, g)] else []
  | EndZ => if p =? length t then [(p, g)] else []
  end.

(** A match object: [m.start()], [m.end()] and the span of group 1. *)
Record rmatch := { m_start : nat; m_end : nat; m_group : caps }.

(** One attempt at position [p]; with [adv] an empty match is refused
    (the matcher's must-advance rule after an empty match). *)
Definition attempt (r : regex) (adv : bool) (p : nat) : option rmatch :=
  let cands := m r p None in
  let cands := if adv then filter (fun eg => negb (fst eg =? p)) cands
               else cands in
  match cands with
  | [] => None
  | eg :: _ => Some {| m_start := p; m_end := fst eg; m_group := snd eg |}
  end.

Fixpoint first_attempt (r : regex) (ps : list nat) : option rmatch :=
  match ps with
  | [] => None
  | p :: ps' =>
      match attempt r false p with
      | Some x => Some x
      | None => first_attempt r ps'
      end
  end.

(** Leftmost match starting at or after [start]. *)
Definition search_at (r : regex) (start : nat) (adv : bool) : option rmatch :=
  match attempt r adv start with
  | Some x => Some x
  | None => first_attempt r (seq (S start) (length t - start))
  end.

(** The replacement loop of [re.sub] with a constant replacement. *)
Fixpoint sub_loop (r : regex) (repl : pystr) (fuel : nat) (i : nat) (adv : bool)
  : pystr :=
  match fuel with
  | 0 => skipn i t
  | S fuel' =>
      match search_at r i adv with
      | None => skipn i t
      | Some mt =>
          slice i (m_start mt) t ++ repl
          ++ sub_loop r repl fuel' (m_end mt) (m_end mt =? m_start mt)
      end
  end.

(** The loop of [re.split] for a pattern without groups. *)
Fixpoint split_loop (r : regex) (fuel : nat) (last : nat) (adv : bool)
  : list pystr :=
  match fuel with
  | 0 => [skipn last t]
  | S fuel' =>
      match search_at r last adv with
      | None => [skipn last t]
      | Some mt =>
          slice last (m_start mt) t
          :: split_loop r fuel' (m_end mt) (m_end mt =? m_start mt)
      end
  end.

End Matcher.

(** Two iterations per position are enough for either loop: an iteration
    moves forward or is followed by one that must. *)
Definition loop_fuel (t : pystr) : nat := 2 * length t + 2.

(** [re.search(r, t, flags)] *)
Definition search (fl : flags) (r : regex) (t : pystr) : option rmatch :=
  search_at fl t r 0 false.

(** [re.sub(r, repl, t, flags)] *)
Definition sub (fl : flags) (r : regex) (repl : pystr) (t : pystr) : pystr :=
  sub_loop fl t r repl (loop_fuel t) 0 false.

(** [re.split(r, t)] *)
Definition split (fl : flags) (r : regex) (t : pystr) : list pystr :=
  split_loop fl t r (loop_fuel t) 0 false.

End Re.
Import Re.

(* ================================================================= *)
(** ** The record reassembler: [clean_multiline_csv] *)

Module Reassembler.

(** The variables of the loop over [lines]. *)
Record state := {
  output_lines : list pystr;
  in_multiline_field : bool;
  multiline_content : list pystr
}.

Definition init : state :=
  {| output_lines := []; in_multiline_field := false; multiline_content := [] |}.

(** [quote_count % 2 == 1], with [quote_count] the number of double-quote
    characters of the line. *)
Definition odd_quotes (line : pystr) : bool :=
  Nat.eqb (Nat.modulo (count_char dquote line) 2) 1.

(** The body of [for line in lines]. *)
Definition step (st : state) (line : pystr) : state :=
  if negb (in_multiline_field st) then
    if odd_quotes line then
      {| output_lines := output_lines st;
         in_multiline_field := true;
         multiline_content := [line] |}
    else if nonempty (strip line) then
      {| output_lines := output_lines st ++ [line];
         in_multiline_field := false;
         multiline_content := multiline_content st |}
    else st
  else
    let content := multiline_content st ++ [line] in
    if odd_quotes line then
      {| output_lines := output_lines st ++ [join (str " ") content];
         in_multiline_field := false;
         multiline_content := [] |}
    else
      {| output_lines := output_lines st;
         in_multiline_field := true;
         multiline_content := content |}.

Definition run (st : state) (lines : list pystr) : state :=
  fold_left step lines st.

(** The logical lines produced from the physical lines. *)
Definition reassemble (lines : list pystr) : list pystr :=
  output_lines (run init lines).

(** What is written to the cleaned file: each logical line and a newline. *)
Definition write_lines (out : list pystr) : pystr :=
  concat (map (fun line => line ++ [nl]) out).

(** From the content of the file to the content of the cleaned file. *)
Definition clean_multiline_csv (content : pystr) : pystr :=
  write_lines (reassemble (split_char nl content)).

End Reassembler.
Import Reassembler.

(* ================================================================= *)
(** ** The land-record field extractor: [parse_owners_raw_field] *)

Module Extractor.

(** *** Exceptions *)

Inductive exn := AttributeError.

Inductive outcome (A : Type) :=
| Ok (a : A)
| Raise (e : exn).
Arguments Ok {A} a.
Arguments Raise {A} e.

Definition bind {A B} (x : outcome A) (k : A -> outcome B) : outcome B :=
  match x with
  | Ok a => k a
  | Raise e => Raise e
  end.

Notation "x <- e ;; k" := (bind e (fun x => k))
  (at level 61, e at next level, right associativity).

(** *** Input values: what a cell of the loaded table can hold *)

Inductive pyval :=
| PyNone
| PyNaN
| PyInt (n : N)
| PyBool (b : bool)
| PyStr (s : pystr).

(** [pd.isna] on a scalar. *)
Definition pd_isna (v : pyval) : bool :=
  match v with
  | PyNone | PyNaN => true
  | _ => false
  end.

(** [isinstance(v, str)] *)
Definition isinstance_str (v : pyval) : bool :=
  match v with
  | PyStr _ => true
  | _ => false
  end.

(** [v.strip()]: only a str has the method. *)
Definition py_strip (v : pyval) : outcome pystr :=
  match v with
  | PyStr s => Ok (strip s)
  | _ => Raise AttributeError
  end.

(** [mt.group(1)]: [None] when the group took no part in the match. *)
Definition group1 (t : pystr) (mt : rmatch) : option pystr :=
  option_map (fun se => slice (fst se) (snd se) t) (m_group mt).

(** [mt.group(1).strip()] *)
Definition group1_strip (t : pystr) (mt : rmatch) : outcome pystr :=
  match group1 t mt with
  | Some s => Ok (strip s)
  | None => Raise AttributeError
  end.

(** *** The patterns of the source *)

Definition ws_star : regex := Rep true 0 ASpace.   (* \s* *)
Definition ws_plus : regex := Rep true 1 ASpace.   (* \s+ *)
Definition colon : regex := One (ALit ":").

Fixpoint alt_of (r : regex) (rs : list regex) : regex :=
  match rs with
  | [] => r
  | r' :: rs' => Alt r (alt_of r' rs')
  end.

(** [Tenants\s+names\s*:] and [Total Area\s*:] *)
Definition tenants_label : regex :=
  cat [lit "Tenants"; ws_plus; lit "names"; ws_star; colon].
Definition total_area_label : regex :=
  cat [lit "Total Area"; ws_star; colon].

(** [Tenants\s+names\s*:|Total Area\s*:|-------|---------|\Z] *)
Definition occupants_bound : regex :=
  alt_of tenants_label [total_area_label; lit "-------"; lit "---------"; EndZ].

(** [Total Area\s*:|-------|---------|\Z] *)
Definition tenants_bound : regex :=
  alt_of total_area_label [lit "-------"; lit "---------"; EndZ].

(** [Occupants Names\s*:\s*] and [Tenants\s+names\s*:\s*] *)
Definition occupants_head : regex :=
  cat [lit "Occupants Names"; ws_star; colon; ws_star].
Definition tenants_head : regex :=
  cat [lit "Tenants"; ws_plus; lit "names"; ws_star; colon; ws_star].

(** [head(.+?)(?=bound)] *)
Definition section_pat (head bound : regex) : regex :=
  Seq head (Seq (Group (Rep false 1 AAny)) (Look bound)).

Definition pat_occupants : regex := section_pat occupants_head occupants_bound.
Definition pat_tenants : regex := section_pat tenants_head tenants_bound.

(** [\d+\)\.\s*] *)
Definition pat_numbered : regex :=
  cat [Rep true 1 ADigit; One (ALit ")"); One (ALit "."); ws_star].

(** [[,;]\s*|\s+and\s+] *)
Definition pat_tenant_sep : regex :=
  Alt (cat [One (ASet false [CChar ","; CChar ";"]); ws_star])
      (cat [ws_plus; lit "and"; ws_plus]).

(** [^[%#&*!@$^()]+\s*] *)
Definition pat_prefix : regex :=
  cat [Bol;
       Rep true 1 (ASet false [CChar "%"; CChar "#"; CChar "&"; CChar "*";
                               CChar "!"; CChar "@"; CChar "$"; CChar "^";
                               CChar "("; CChar ")"]);
       ws_star].

(** [[,\s\n\r]+$] *)
Definition pat_trailing : regex :=
  cat [Rep true 1 (ASet false [CChar ","; CSpace; CChar nl; CChar cr]); Eol].

(** *** Name lists *)

Definition placeholders : list pystr :=
  [str "nil"; str "null"; str "none"; str "na"; str "n/a"; str "-"].

(** The three [re.sub] calls and the two [strip] calls on one part. *)
Definition clean_name (part : pystr) : pystr :=
  let cleaned_name := strip (Re.sub no_flags pat_prefix [] part) in
  let cleaned_name := strip (Re.sub no_flags pat_trailing [] cleaned_name) in
  Re.sub no_flags ws_plus (str " ") cleaned_name.

(** The guard of the [append]. *)
Definition accepts (names : list pystr) (cleaned_name : pystr) : bool :=
  nonempty cleaned_name
  && negb (str_in (lower cleaned_name) placeholders)
  && negb (str_in cleaned_name names).

(** One iteration of [for part in parts]. *)
Definition add_part (names : list pystr) (part : pystr) : list pystr :=
  let part := strip part in
  if nonempty part then
    let cleaned_name := clean_name part in
    if accepts names cleaned_name then names ++ [cleaned_name] else names
  else names.

Definition collect_names (parts : list pystr) : list pystr :=
  fold_left add_part parts [].

Definition has_numbered (s : pystr) : bool :=
  match Re.search no_flags pat_numbered s with Some _ => true | None => false end.

Definition occupant_parts (occupants_text : pystr) : list pystr :=
  if has_numbered occupants_text
  then Re.split no_flags pat_numbered occupants_text
  else [occupants_text].

Definition tenant_parts (tenants_text : pystr) : list pystr :=
  if has_numbered tenants_text
  then Re.split no_flags pat_numbered tenants_text
  else Re.split no_flags pat_tenant_sep tenants_text.

(** *** Remarks *)

Definition not_colon : atom := ASet true [CChar ":"].
Definition rule_char : atom := ASet false [CChar "-"; CChar "="].
Definition tenants_words : regex := cat [lit "Tenants"; ws_plus; lit "names"].

Definition standard_patterns : list regex :=
  [ cat [lit "Taluka Name"; ws_star; colon; Rep false 0 not_colon;
         Look (alt_of (cat [ws_plus; lit "Village Name"])
                 [lit "Subdiv No"; lit "Occupants Names"; tenants_words;
                  lit "Total Area"; EndZ])];
    cat [lit "Village Name"; ws_star; colon; Rep false 0 not_colon;
         Look (alt_of (cat [ws_plus; lit "Subdiv No"])
                 [lit "Occupants Names"; tenants_words; lit "Total Area"; EndZ])];
    cat [lit "Subdiv No"; ws_star; colon; Rep false 0 not_colon;
         Look (alt_of (cat [ws_plus; lit "Occupants Names"])
                 [tenants_words; lit "Total Area"; EndZ])];
    cat [lit "Total Area"; ws_star; colon; Rep false 0 not_colon;
         Look (Alt (cat [ws_star; Rep true 3 rule_char]) EndZ)];
    cat [lit "Occupants Names"; ws_star; colon; Rep false 0 AAny;
         Look occupants_bound];
    cat [lit "Tenants"; ws_plus; lit "names"; ws_star; colon; Rep false 0 AAny;
         Look tenants_bound];
    Rep true 3 rule_char;
    cat [Bol; ws_star; Eol] ].

Definition extract_remarks (text : pystr) : pystr :=
  let text_for_remarks :=
    fold_left (fun acc pattern => Re.sub f_ISM pattern [] acc)
              standard_patterns text in
  let text_for_remarks :=
    Re.sub no_flags (Rep true 1 (ALit nl)) (str " ") text_for_remarks in
  let text_for_remarks := Re.sub no_flags ws_plus (str " ") text_for_remarks in
  strip text_for_remarks.

(** *** The result and the function *)

Record ParsedOwnerInfo := {
  occupant_count : nat;
  occupant_names : list pystr;
  tenant_count : nat;
  tenant_names : list pystr;
  remarks : pystr
}.

Definition default_info : ParsedOwnerInfo :=
  {| occupant_count := 0; occupant_names := [];
     tenant_count := 0; tenant_names := []; remarks := [] |}.

Definition set_occupants (r : ParsedOwnerInfo) (names : list pystr) :=
  {| occupant_count := length names; occupant_names := names;
     tenant_count := tenant_count r; tenant_names := tenant_names r;
     remarks := remarks r |}.

Definition set_tenants (r : ParsedOwnerInfo) (names : list pystr) :=
  {| occupant_count := occupant_count r; occupant_names := occupant_names r;
     tenant_count := length names; tenant_names := names;
     remarks := remarks r |}.

Definition set_remarks (r : ParsedOwnerInfo) (s : pystr) :=
  {| occupant_count := occupant_count r; occupant_names := occupant_names r;
     tenant_count := tenant_count r; tenant_names := tenant_names r;
     remarks := s |}.

(** The body after the guard, on the stripped text. *)
Definition parse_text (text : pystr) : outcome ParsedOwnerInfo :=
  let result := default_info in
  let occupants_match := Re.search f_IS pat_occupants text in
  let tenants_match := Re.search f_IS pat_tenants text in
  result <-
    match occupants_match with
    | Some mt =>
        occupants_text <- group1_strip text mt ;;
        Ok (set_occupants result (collect_names (occupant_parts occupants_text)))
    | None => Ok result
    end ;;
  result <-
    match tenants_match with
    | Some mt =>
        tenants_text <- group1_strip text mt ;;
        Ok (set_tenants result (collect_names (tenant_parts tenants_text)))
    | None => Ok result
    end ;;
  Ok (set_remarks result (extract_remarks text)).

Definition parse_owners_raw_field (owners_raw_text : pyval)
  : outcome ParsedOwnerInfo :=
  if pd_isna owners_raw_text || negb (isinstance_str owners_raw_text)
  then Ok default_info
  else
    text <- py_strip owners_raw_text ;;
    parse_text text.

End Extractor.
Import Extractor.

(* ================================================================= *)
(** ** Classification flags of [load_and_validate_data] *)

Module Classify.

Definition comunidade_variations : list string :=
  [ "Comminidade"; "Commmunidade"; "Commnnidade"; "Commnunidade"; "Commonidade";
    "Commudade"; "Commudidade"; "Commuidade"; "Commundade"; "Commundiade";
    "Communiade"; "Communicade"; "Communid"; "Communida"; "Communidad";
    "Communidad3e"; "Communidada"; "Communidade"; "Communidadee"; "Communidae";
    "Communidaede"; "Communidasde"; "Communiddade"; "Communidde"; "Communide";
    "Communidede"; "Communindade"; "Communnidade"; "Communudade"; "Comuidade";
    "Comundiade"; "Comuniade"; "Comunidad"; "Comunidade"; "Comunidae" ]%string.

Definition government_keywords : list string :=
  [ "government"; "govt"; "railway"; " rly "; "block  "; "forest";
    " engineer"; "officer"; "department"; "ministry"; "division" ]%string.

(** ['|'.join(words)] as a pattern; every word is matched literally (the
    comunidade words hold letters and one digit only, the government
    keywords go through [re.escape]). *)
Definition any_of (words : list string) : regex :=
  match map lit words with
  | [] => Eps
  | r :: rs => alt_of r rs
  end.

Definition comunidade_pattern : regex := any_of comunidade_variations.
Definition government_pattern : regex := any_of government_keywords.

(** [Series.str.contains(pat, case=False, na=False, regex=True)] on one
    string: [re.search] under IGNORECASE. *)
Definition str_contains (pat : regex) (s : pystr) : bool :=
  match Re.search f_I pat s with
  | Some _ => true
  | None => false
  end.

(** [str.upper] on one character; the three characters of the range whose
    upper-case form lies outside it are left as they are, which no
    comparison with an ASCII word can see. *)
Definition upper_char (c : ascii) : ascii :=
  let n := code c in
  if ((97 <=? n) && (n <=? 122)
      || (224 <=? n) && (n <=? 254) && negb (n =? 247))%N
  then ascii_of_N (n - 32) else c.

Definition upper (s : pystr) : pystr := map upper_char s.

(** The columns of one row that the classification reads, after
    [astype(str)]; [None] when the table has no such column. *)
Record row := {
  owners_raw : option pystr;
  communidade : option pystr
}.

Definition is_comunidade (r : row) : bool :=
  match owners_raw r with
  | Some raw => str_contains comunidade_pattern raw
  | None =>
      match communidade r with
      | Some c => str_eqb (upper c) (str "TRUE")
      | None => false
      end
  end.

Definition is_government (r : row) : bool :=
  match owners_raw r with
  | Some raw => str_contains government_pattern raw
  | None => false
  end.

End Classify.
Import Classify.

(* ================================================================= *)
(** ** Vocabulary of the properties *)

Module Props.

(** [s] begins with the word [kw], characters compared under the flags. *)
Fixpoint starts_with (fl : flags) (kw s : pystr) : bool :=
  match kw, s with
  | [], _ => true
  | k :: kw', c :: s' => char_eq fl k c && starts_with fl kw' s'
  | _ :: _, [] => false
  end.

(** A name that is a placeholder token, case-insensitively. *)
Definition is_placeholder (n : pystr) : bool := str_in (lower n) placeholders.

(** A name made of whitespace only. *)
Definition whitespace_only (n : pystr) : bool := forallb isspace n.

(** A proper name: not empty, not whitespace only, not a placeholder. *)
Definition proper_name (n : pystr) : Prop :=
  n <> [] /\ whitespace_only n = false /\ is_placeholder n = false.

(** The cleaned fragments of a section that are not empty and not a
    placeholder, in the order of the text. *)
Definition candidates (parts : list pystr) : list pystr :=
  filter (fun c => nonempty c && negb (is_placeholder c))
         (map clean_name (filter nonempty (map strip parts))).

(** Ordered-set reading of a sequence: every element stays at its first
    occurrence and later copies are dropped. *)
Fixpoint keep_first (xs : list pystr) : list pystr :=
  match xs with
  | [] => []
  | x :: xs' => x :: filter (fun y => negb (str_eqb y x)) (keep_first xs')
  end.

(** The stripped text of a section, when the text has one. *)
Definition section_text (pat : regex) (text : pystr) : option pystr :=
  match Re.search f_IS pat text with
  | Some mt => option_map strip (group1 text mt)
  | None => None
  end.

(** The fragments of the two sections of a stripped text, in the order of
    the text, before cleaning. *)
Definition occupant_fragments (text : pystr) : list pystr :=
  match section_text pat_occupants text with
  | Some s => occupant_parts s
  | None => []
  end.

Definition tenant_fragments (text : pystr) : list pystr :=
  match section_text pat_tenants text with
  | Some s => tenant_parts s
  | None => []
  end.

(** The same for an input value: only a string has fragments. *)
Definition fragments_of (frags : pystr -> list pystr) (v : pyval) : list pystr :=
  match v with
  | PyStr raw => frags (strip raw)
  | _ => []
  end.

Definition remarks_of (v : pyval) : pystr :=
  match v with
  | PyStr raw => extract_remarks (strip raw)
  | _ => []
  end.

(** The pattern [r] has a match that begins at position [p]. *)
Definition hits (fl : flags) (t : pystr) (r : regex) (p : nat) (g : caps) : bool :=
  match Re.m fl t r p g with
  | [] => false
  | _ :: _ => true
  end.

(** *** Section boundaries *)

(** The words matched by a pattern, positions and look-around aside. *)
Fixpoint denote (fl : flags) (r : regex) (w : pystr) : Prop :=
  match r with
  | Eps | Look _ | Bol | Eol | EndZ => w = []
  | One a => exists c, w = [c] /\ atom_match fl a c = true
  | Seq r1 r2 => exists w1 w2, w = w1 ++ w2 /\ denote fl r1 w1 /\ denote fl r2 w2
  | Alt r1 r2 => denote fl r1 w \/ denote fl r2 w
  | Rep _ mn a => mn <= length w /\ Forall (fun c => atom_match fl a c = true) w
  | Group r1 => denote fl r1 w
  end.

Definition first_is_space (s : pystr) : bool :=
  match s with
  | c :: _ => isspace c
  | [] => false
  end.

(** [s] begins with the label Tenants names: (any case; whitespace
    between the two words, optional whitespace before the colon). *)
Definition tenants_label_at (s : pystr) : bool :=
  starts_with f_IS (str "Tenants") s
  && (first_is_space (skipn 7 s)
      && (starts_with f_IS (str "names") (lstrip (skipn 7 s))
          && starts_with f_IS (str ":")
               (lstrip (skipn 5 (lstrip (skipn 7 s)))))).

(** [s] begins with the label Total Area: (any case; optional whitespace
    before the colon). *)
Definition total_area_label_at (s : pystr) : bool :=
  starts_with f_IS (str "Total Area") s
  && starts_with f_IS (str ":") (lstrip (skipn 10 s)).

(** [s] begins with [n] dashes. *)
Definition dashes_at (n : nat) (s : pystr) : bool :=
  starts_with f_IS (repeat "-"%char n) s.

Definition at_end (s : pystr) : bool := negb (nonempty s).

(** Where the source ends a section: a following label, seven dashes, or
    the end of the text. *)
Definition occupants_end_at (s : pystr) : bool :=
  tenants_label_at s || total_area_label_at s || dashes_at 7 s || at_end s.

Definition tenants_end_at (s : pystr) : bool :=
  total_area_label_at s || dashes_at 7 s || at_end s.

(** Number of leading characters of [s] that satisfy [f]. *)
Fixpoint leading (f : ascii -> bool) (s : pystr) : nat :=
  match s with
  | c :: s' => if f c then S (leading f s') else 0
  | [] => 0
  end.

Definition is_rule_char (c : ascii) : bool :=
  Ascii.eqb c "-" || Ascii.eqb c "=".

(** Following the specification's words: a run of five or more dash or
    equals characters begins at [s]. *)
Definition spec_rule_at (s : pystr) : bool := 5 <=? leading is_rule_char s.

(** Following the specification's words: where a section ends. *)
Definition spec_occupants_end_at (s : pystr) : bool :=
  tenants_label_at s || total_area_label_at s || spec_rule_at s || at_end s.

Definition spec_tenants_end_at (s : pystr) : bool :=
  total_area_label_at s || spec_rule_at s || at_end s.

(** A section pattern cuts its section at the nearest boundary: when the
    pattern is found, the match begins with the head (label, colon and
    surrounding whitespace), the section is the group, it is not empty,
    it ends where the match ends, a boundary stands at its end and none
    stands before its end from its character number [first] on ([0] for
    its first character). *)
Definition ends_at_nearest (head : regex) (bound_at : pystr -> bool)
    (first : nat) (text : pystr) (found : option rmatch) : Prop :=
  forall mt, found = Some mt ->
    exists s e,
      m_group mt = Some (s, e) /\ m_end mt = e
      /\ m_start mt <= s /\ s < e /\ e <= length text
      /\ denote f_IS head (slice (m_start mt) s text)
      /\ bound_at (skipn e text) = true
      /\ (forall p, s + first <= p -> p < e ->
            bound_at (skipn p text) = false).

(** A section pattern runs its section to the nearest boundary: when the
    pattern is found, the match begins with the head (label, colon and
    surrounding whitespace) and the section is the group; and when no
    boundary stands at the first character of the section, the section is
    not empty, a boundary stands at its end and none stands before its
    end, from its first character on.  Nothing is said of a section at
    whose first character a boundary stands. *)
Definition runs_to_nearest (head : regex) (bound_at : pystr -> bool)
    (text : pystr) (found : option rmatch) : Prop :=
  forall mt, found = Some mt ->
    exists s e,
      m_group mt = Some (s, e) /\ m_end mt = e
      /\ m_start mt <= s /\ e <= length text
      /\ denote f_IS head (slice (m_start mt) s text)
      /\ (bound_at (skipn s text) = false ->
          s < e
          /\ bound_at (skipn e text) = true
          /\ (forall p, s <= p -> p < e ->
                bound_at (skipn p text) = false)).

(** *** Auxiliary notions *)

(** The pattern holds no capturing group. *)
Fixpoint no_group (r : regex) : bool :=
  match r with
  | Seq r1 r2 | Alt r1 r2 => no_group r1 && no_group r2
  | Group _ => false
  | Look r1 => no_group r1
  | _ => true
  end.

(** One iteration of the name loop on a fragment that is already cleaned
    and accepted as non-empty and not a placeholder. *)
Definition add_candidate (names : list pystr) (c : pystr) : list pystr :=
  if str_in c names then names else names ++ [c].

(** Iterations that the loop of [re.sub] or [re.split] can still make on
    the text [t] from position [i]. *)
Definition fuel_needed (t : pystr) (i : nat) (adv : bool) : nat :=
  2 * (length t - i) + (if adv then 1 else 2).

(** *** Sample inputs *)

(** Two physical lines of one record: a quoted field opens on the first
    and closes on the second. *)
Definition quoted_a : pystr := str "1,x," ++ [dquote] ++ str "Occupants Names:".
Definition quoted_b : pystr := str "1). Jose" ++ [dquote] ++ str ",y".

Definition scenario_text : pystr :=
  str "Occupants Names: 1). Jose Fernandes 2). %Maria Souza, Tenants names: nil Total Area: 500 sq m".

(** A text with a rule of five dashes inside the occupants section and a
    rule of five equals signs inside the tenants section. *)
Definition short_rules_text : pystr :=
  str "Occupants Names: A ----- B Tenants names: C ===== D".

(** A text whose occupants label is followed at once by the tenants
    label. *)
Definition empty_occupants_text : pystr :=
  str "Occupants Names: Tenants names: X".

End Props.
Import Props.

(* ================================================================= *)
(** ** Further steps of [load_and_validate_data] and [main] *)

Module Loader.

(** [df['is_tenanted'] = df['tenant_count'] > 0], on one row. *)
Definition is_tenanted (info : ParsedOwnerInfo) : bool :=
  0 <? tenant_count info.

(** The class [[^0-9.]], its range written out. *)
Definition not_numeric : atom :=
  ASet true [CChar "0"; CChar "1"; CChar "2"; CChar "3"; CChar "4";
             CChar "5"; CChar "6"; CChar "7"; CChar "8"; CChar "9";
             CChar "."].

(** [df[col].astype(str).str.replace(r'[^0-9.]', '', regex=True)], on one
    string of the column. *)
Definition clean_area_text (s : pystr) : pystr :=
  Re.sub no_flags (One not_numeric) [] s.

(** [lambda x: len(x.strip()) if isinstance(x, str) and x.strip() else 0],
    the remark count of [main]. *)
Definition remark_count (x : pyval) : nat :=
  match x with
  | PyStr s => if nonempty (strip s) then length (strip s) else 0
  | _ => 0
  end.

(** [s.replace(old, new)] for a non-empty [old]: the occurrences of [old]
    are replaced from left to right, without overlap; [skip] characters
    of the occurrence just replaced are still to be passed over. *)
Fixpoint replace_from (old new : pystr) (skip : nat) (s : pystr) : pystr :=
  match s with
  | [] => []
  | c :: s' =>
      match skip with
      | S k => replace_from old new k s'
      | 0 =>
          if starts_with no_flags old s
          then new ++ replace_from old new (length old - 1) s'
          else c :: replace_from old new 0 s'
      end
  end.

Definition py_replace (old new s : pystr) : pystr := replace_from old new 0 s.

(** [temp_file = file_path.replace('.csv', '_cleaned.csv')], the path that
    [clean_multiline_csv] writes and returns, and that
    [load_and_validate_data] reads and removes. *)
Definition temp_file (file_path : pystr) : pystr :=
  py_replace (str ".csv") (str "_cleaned.csv") file_path.

End Loader.
Import Loader.

(* ================================================================= *)
(** ** Vocabulary of the further properties *)

Module Props2.

(** A line that is not blank: [line.strip()] is true. *)
Definition nonblank (line : pystr) : bool := nonempty (strip line).

(** The number of double quotes of a line is even. *)
Definition balanced (line : pystr) : bool :=
  Nat.even (count_char dquote line).

(** Double quotes in a sequence of lines. *)
Definition quotes_in (lines : list pystr) : nat :=
  list_sum (map (count_char dquote) lines).

(** The line holds no newline character. *)
Definition one_line (line : pystr) : Prop := ~ In nl line.

(** The characters of a line that are not whitespace, in order. *)
Definition ink (line : pystr) : pystr :=
  filter (fun c => negb (isspace c)) line.

(** The word [kw] occurs somewhere in [s], compared under the flags. *)
Definition occurs (fl : flags) (kw s : pystr) : bool :=
  existsb (fun p => starts_with fl kw (skipn p s)) (seq 0 (length s + 1)).

(** Replacing, from left to right, every match of a pattern whose matches
    begin at a character of the class [a] and take [width] characters,
    read on the rest of the text; [k] characters of a match are still to
    be passed over. *)
Fixpoint replace_runs (fl : flags) (a : atom) (width : pystr -> nat)
    (repl : pystr) (k : nat) (s : pystr) : pystr :=
  match s with
  | [] => []
  | c :: s' =>
      match k with
      | S k' => replace_runs fl a width repl k' s'
      | 0 =>
          if atom_match fl a c
          then repl ++ replace_runs fl a width repl (width s - 1) s'
          else c :: replace_runs fl a width repl 0 s'
      end
  end.

(** Every run of whitespace replaced by one space; [in_run] tells that
    the run under way was already replaced. *)
Fixpoint squeeze (in_run : bool) (s : pystr) : pystr :=
  match s with
  | [] => []
  | c :: s' =>
      if isspace c
      then if in_run then squeeze true s' else " "%char :: squeeze true s'
      else c :: squeeze false s'
  end.

(** The only whitespace of [s] is the space character, and no two
    whitespace characters are adjacent; [prev] tells that the character
    before [s] is whitespace. *)
Fixpoint spaced (prev : bool) (s : pystr) : bool :=
  match s with
  | [] => true
  | c :: s' =>
      if isspace c
      then Ascii.eqb c " " && negb prev && spaced true s'
      else spaced false s'
  end.

(** Neither end of the string is whitespace. *)
Definition ends_clean (s : pystr) : Prop :=
  (forall a r, s = a :: r -> isspace a = false)
  /\ (forall l z, s = l ++ [z] -> isspace z = false).

(** A tidy string: no whitespace at either end, and inside only single
    spaces. *)
Definition tidy (s : pystr) : Prop := strip s = s /\ spaced false s = true.

(** A character of the raw text, or the space that replaces a run of
    whitespace. *)
Definition from_text (raw : pystr) (c : ascii) : Prop :=
  In c raw \/ c = " "%char.

(** The letters A to Z put in lower case, every other character left as
    it is. *)
Definition ascii_lower (c : ascii) : ascii :=
  let n := code c in
  if ((65 <=? n) && (n <=? 90))%N then ascii_of_N (n + 32) else c.

(** A comma or a semicolon. *)
Definition is_list_separator (c : ascii) : bool :=
  Ascii.eqb c "," || Ascii.eqb c ";".

(** The invariant of the loop: every line emitted so far is balanced and
    not blank, and inside a quoted field the accumulated lines hold an
    odd number of double quotes. *)
Definition reassembler_inv (st : state) : Prop :=
  Forall (fun l => balanced l = true /\ nonblank l = true) (output_lines st)
  /\ (in_multiline_field st = true ->
      Nat.odd (quotes_in (multiline_content st)) = true).

(** Outside a quoted field the accumulator is empty, and the characters
    that are not whitespace of the lines read so far are those of the
    lines emitted followed by those of the accumulator. *)
Definition keeps_ink (lines : list pystr) (st : state) : Prop :=
  (in_multiline_field st = false -> multiline_content st = [])
  /\ flat_map ink (output_lines st) ++ flat_map ink (multiline_content st)
     = flat_map ink lines.

End Props2.
Import Props2.

(* ================================================================= *)
(** * Properties *)

Arguments Re.search : simpl never.
Arguments Re.sub : simpl never.
Arguments Re.split : simpl never.
Arguments strip : simpl never.
Arguments clean_name : simpl never.
Arguments extract_remarks : simpl never.

(* ================================================================= *)
(** ** The reassembler *)

Module ReassemblerFacts.

Lemma odd_quotes_odd (line : pystr) :
  odd_quotes line = Nat.odd (count_char dquote line).
Proof.
  unfold odd_quotes.
  generalize (count_char dquote line); intro n.
  rewrite <- Nat.bit0_mod, Nat.bit0_odd.
  destruct (Nat.odd n); reflexivity.
Qed.

Lemma odd_quotes_even (line : pystr) :
  Nat.even (count_char dquote line) = true -> odd_quotes line = false.
Proof.
  intro H. rewrite odd_quotes_odd, <- Nat.negb_even, H. reflexivity.
Qed.

Lemma run_app (st : state) (xs ys : list pystr) :
  run st (xs ++ ys) = run (run st xs) ys.
Proof. apply fold_left_app. Qed.

(** Outside a quoted field, a self-contained non-blank line is emitted. *)
Lemma step_plain (st : state) (line : pystr) :
  in_multiline_field st = false ->
  odd_quotes line = false ->
  nonempty (strip line) = true ->
  step st line =
    {| output_lines := output_lines st ++ [line];
       in_multiline_field := false;
       multiline_content := multiline_content st |}.
Proof.
  intros Hout Hq Hne. unfold step. rewrite Hout, Hq, Hne. reflexivity.
Qed.

(** Outside a quoted field, an odd line opens one and emits nothing. *)
Lemma step_open (st : state) (line : pystr) :
  in_multiline_field st = false ->
  odd_quotes line = true ->
  step st line =
    {| output_lines := output_lines st;
       in_multiline_field := true;
       multiline_content := [line] |}.
Proof.
  intros Hout Hq. unfold step. rewrite Hout, Hq. reflexivity.
Qed.

(** Inside a quoted field, even lines are only accumulated. *)
Lemma run_inside_even (rest : list pystr) :
  forall st,
    in_multiline_field st = true ->
    Forall (fun l => Nat.even (count_char dquote l) = true) rest ->
    run st rest =
      {| output_lines := output_lines st;
         in_multiline_field := true;
         multiline_content := multiline_content st ++ rest |}.
Proof.
  induction rest as [|l rest IH]; intros st Hin Hall.
  - simpl. rewrite app_nil_r. destruct st; simpl in *; subst; reflexivity.
  - inversion Hall as [|? ? Hl Hrest]; subst.
    change (run st (l :: rest)) with (run (step st l) rest).
    assert (Hstep : step st l =
                    {| output_lines := output_lines st;
                       in_multiline_field := true;
                       multiline_content := multiline_content st ++ [l] |}).
    { unfold step. rewrite Hin, (odd_quotes_even _ Hl). reflexivity. }
    rewrite Hstep, IH by (simpl; auto). simpl.
    rewrite <- app_assoc. reflexivity.
Qed.

(** C5: starting outside a quoted field, a non-blank line with an even
    number of double quotes is emitted unchanged as one logical line, and
    two consecutive lines with an odd number of double quotes each are
    emitted as exactly one logical line, the two joined by a single
    space; in both cases the machine is outside a quoted field again. *)
Theorem reassembler_round_trip :
  forall pre : list pystr,
    in_multiline_field (run init pre) = false ->
    (forall line,
        Nat.even (count_char dquote line) = true ->
        nonempty (strip line) = true ->
        reassemble (pre ++ [line]) = reassemble pre ++ [line]
        /\ in_multiline_field (run init (pre ++ [line])) = false)
    /\
    (forall l1 l2,
        Nat.odd (count_char dquote l1) = true ->
        Nat.odd (count_char dquote l2) = true ->
        reassemble (pre ++ [l1; l2]) = reassemble pre ++ [l1 ++ str " " ++ l2]
        /\ in_multiline_field (run init (pre ++ [l1; l2])) = false).
Proof.
  intros pre Hout. split.
  - intros line Heven Hne.
    unfold reassemble. rewrite run_app. simpl.
    rewrite (step_plain _ _ Hout (odd_quotes_even _ Heven) Hne).
    simpl. auto.
  - intros l1 l2 H1 H2.
    unfold reassemble. rewrite run_app. simpl.
    rewrite (step_open _ _ Hout) by (rewrite odd_quotes_odd; exact H1).
    unfold step. simpl. rewrite odd_quotes_odd, H2. simpl. auto.
Qed.

Lemma reassembler_round_trip_witness :
  reassemble [str "taluka,village"] = [str "taluka,village"]
  /\ reassemble [quoted_a; quoted_b] = [quoted_a ++ str " " ++ quoted_b].
Proof.
  destruct (reassembler_round_trip [] eq_refl) as [Hone Htwo].
  split.
  - apply (Hone (str "taluka,village")); reflexivity.
  - apply (Htwo quoted_a quoted_b); reflexivity.
Defined.

(** C6: when the input ends inside a quoted field (an odd line opened it
    and only even lines followed), the accumulated partial record is not
    emitted: the output is the output produced before the opening line,
    and the lines of the partial record are left in the accumulator. *)
Theorem reassembler_drops_unclosed_record :
  forall (pre : list pystr) (opening : pystr) (rest : list pystr),
    in_multiline_field (run init pre) = false ->
    Nat.odd (count_char dquote opening) = true ->
    Forall (fun l => Nat.even (count_char dquote l) = true) rest ->
    in_multiline_field (run init (pre ++ opening :: rest)) = true
    /\ multiline_content (run init (pre ++ opening :: rest)) = opening :: rest
    /\ reassemble (pre ++ opening :: rest) = reassemble pre.
Proof.
  intros pre opening rest Hout Hodd Hrest.
  unfold reassemble. rewrite run_app. simpl.
  rewrite (step_open _ _ Hout) by (rewrite odd_quotes_odd; exact Hodd).
  rewrite run_inside_even by (simpl; auto).
  simpl. auto.
Qed.

Lemma reassembler_drops_unclosed_record_witness :
  reassemble [str "a,b"; quoted_a; str "more"; []] = [str "a,b"].
Proof.
  apply (reassembler_drops_unclosed_record [str "a,b"] quoted_a [str "more"; []]).
  - reflexivity.
  - reflexivity.
  - repeat constructor.
Defined.

End ReassemblerFacts.

(* ================================================================= *)
(** ** The matcher *)

Module ReFacts.

(** *** Lists of candidates *)

Lemma flat_map_first {A B} (f : A -> list B) (l : list A) (x : B) (xs : list B) :
  flat_map f l = x :: xs ->
  exists l1 y l2 ys,
    l = l1 ++ y :: l2 /\ (forall z, In z l1 -> f z = []) /\ f y = x :: ys.
Proof.
  induction l as [|a l IH]; simpl; intro H; [discriminate|].
  destruct (f a) as [|b bs] eqn:Hfa.
  - simpl in H. destruct (IH H) as (l1 & y & l2 & ys & -> & Hnil & Hy).
    exists (a :: l1), y, l2, ys. split; [reflexivity|]. split; [|exact Hy].
    intros z [<-|Hz]; auto.
  - simpl in H. injection H as <- _.
    exists [], a, l, bs. split; [reflexivity|]. split; [|exact Hfa].
    intros z [].
Qed.

Lemma flat_map_all_nil {A B} (f : A -> list B) (l : list A) :
  (forall z, In z l -> f z = []) -> flat_map f l = [].
Proof.
  induction l as [|a l IH]; simpl; intro H; [reflexivity|].
  rewrite (H a) by auto. simpl. apply IH. intros z Hz. apply H. auto.
Qed.

Lemma flat_map_map {A B C} (h : A -> B) (f : B -> list C) (l : list A) :
  flat_map f (map h l) = flat_map (fun a => f (h a)) l.
Proof.
  induction l as [|a l IH]; simpl; [reflexivity|]. now rewrite IH.
Qed.

Lemma seq_split (n : nat) :
  forall a l1 e l2,
    seq a n = l1 ++ e :: l2 ->
    l1 = seq a (e - a) /\ a <= e /\ e < a + n.
Proof.
  induction n as [|n IH]; intros a l1 e l2 H; simpl in H.
  - destruct l1; discriminate.
  - destruct l1 as [|b l1]; simpl in H; injection H as Hb Hrest.
    + subst e. rewrite Nat.sub_diag. simpl. repeat split; lia.
    + subst b. destruct (IH _ _ _ _ Hrest) as (Hl1 & Hle & Hlt).
      replace (e - a) with (S (e - S a)) by lia. simpl.
      rewrite <- Hl1. repeat split; lia.
Qed.

Section Matcher.

Variable fl : flags.
Variable t : pystr.

Local Abbreviation m := (Re.m fl t).

Lemma m_caps (r : regex) :
  no_group r = true ->
  forall p g eg, In eg (m r p g) -> snd eg = g.
Proof.
  induction r as [ | a | r1 IH1 r2 IH2 | r1 IH1 r2 IH2 | gr mn a
                   | r1 IH1 | r1 IH1 | | | ]; simpl; intros Hng p g eg Hin.
  - destruct Hin as [<-|[]]; reflexivity.
  - destruct (nth_error t p) as [c|]; [|contradiction].
    destruct (atom_match fl a c); [|contradiction].
    destruct Hin as [<-|[]]; reflexivity.
  - apply andb_true_iff in Hng as [H1 H2].
    apply in_flat_map in Hin as (eg1 & Hin1 & Hin2).
    rewrite (IH2 H2 _ _ _ Hin2). exact (IH1 H1 _ _ _ Hin1).
  - apply andb_true_iff in Hng as [H1 H2].
    apply in_app_or in Hin as [Hin|Hin]; eauto.
  - destruct (_ <? _); [contradiction|].
    apply in_map_iff in Hin as (e & <- & _). reflexivity.
  - discriminate.
  - destruct (m r1 p g) as [|eg1 rest] eqn:Hm; [contradiction|].
    destruct Hin as [<-|[]]. simpl.
    apply (IH1 Hng p g). rewrite Hm. left; reflexivity.
  - destruct (at_bol fl t p); [|contradiction].
    destruct Hin as [<-|[]]; reflexivity.
  - destruct (at_eol fl t p); [|contradiction].
    destruct Hin as [<-|[]]; reflexivity.
  - destruct (p =? length t); [|contradiction].
    destruct Hin as [<-|[]]; reflexivity.
Qed.

(** *** What a successful search returns *)

Lemma attempt_some (r : regex) (p : nat) (mt : rmatch) :
  attempt fl t r false p = Some mt ->
  m_start mt = p /\ exists rest, m r p None = (m_end mt, m_group mt) :: rest.
Proof.
  unfold attempt. destruct (m r p None) as [|[e g] rest]; [discriminate|].
  intro H. injection H as <-. simpl. split; [reflexivity|]. now exists rest.
Qed.

Lemma first_attempt_some (r : regex) (ps : list nat) (mt : rmatch) :
  first_attempt fl t r ps = Some mt ->
  In (m_start mt) ps
  /\ exists rest, m r (m_start mt) None = (m_end mt, m_group mt) :: rest.
Proof.
  induction ps as [|p ps IH]; simpl; [discriminate|].
  destruct (attempt fl t r false p) as [x|] eqn:Ha.
  - intro H. injection H as ->.
    destruct (attempt_some _ _ _ Ha) as [Hs Hm]. rewrite Hs. auto.
  - intro H. destruct (IH H) as [Hin Hm]. auto.
Qed.

Lemma search_some (r : regex) (mt : rmatch) :
  Re.search fl r t = Some mt ->
  m_start mt <= length t
  /\ exists rest, m r (m_start mt) None = (m_end mt, m_group mt) :: rest.
Proof.
  unfold Re.search, search_at.
  destruct (attempt fl t r false 0) as [x|] eqn:Ha.
  - intro H. injection H as ->.
    destruct (attempt_some _ _ _ Ha) as [Hs Hm]. rewrite Hs. split; [lia|exact Hm].
  - intro H. destruct (first_attempt_some _ _ _ H) as [Hin Hm].
    apply in_seq in Hin. split; [lia|exact Hm].
Qed.

Lemma attempt_none (r : regex) (p : nat) :
  attempt fl t r false p = None -> m r p None = [].
Proof.
  unfold attempt. destruct (m r p None); [reflexivity|discriminate].
Qed.

Lemma first_attempt_none (r : regex) (ps : list nat) :
  first_attempt fl t r ps = None ->
  forall p, In p ps -> m r p None = [].
Proof.
  induction ps as [|q ps IH]; simpl; intros H p Hin; [contradiction|].
  destruct (attempt fl t r false q) eqn:Ha; [discriminate|].
  destruct Hin as [<-|Hin]; [now apply attempt_none|now apply IH].
Qed.

(** A pattern that matches somewhere is found by the search. *)
Lemma search_complete (r : regex) (p : nat) :
  p <= length t -> m r p None <> [] -> Re.search fl r t <> None.
Proof.
  intros Hp Hm Hnone. apply Hm.
  unfold Re.search, search_at in Hnone.
  destruct (attempt fl t r false 0) eqn:Ha; [discriminate|].
  destruct p as [|p]; [now apply attempt_none|].
  apply (first_attempt_none _ _ Hnone). apply in_seq. lia.
Qed.

(** *** Sections: [head(.+?)(?=bound)] *)

Lemma run_len_any (s : pystr) :
  dotall fl = true -> run_len fl AAny s = length s.
Proof.
  intro Hd. induction s as [|c s IH]; simpl; [reflexivity|].
  rewrite Hd. simpl. now rewrite IH.
Qed.

Lemma section_match (head bound : regex) (mt : rmatch) :
  dotall fl = true ->
  no_group head = true ->
  no_group bound = true ->
  Re.search fl (section_pat head bound) t = Some mt ->
  exists s e,
    m_group mt = Some (s, e) /\ m_end mt = e
    /\ In (s, None) (m head (m_start mt) None)
    /\ s < e /\ e <= length t
    /\ m bound e (Some (s, e)) <> []
    /\ (forall p, s < p -> p < e -> m bound p (Some (s, p)) = []).
Proof.
  intros Hdot Hh Hb Hs.
  destruct (search_some _ _ Hs) as [_ [rest Hm]].
  unfold section_pat in Hm. simpl in Hm.
  apply flat_map_first in Hm as (l1 & [s gs] & l2 & ys & Hhead & _ & Hy).
  assert (Hin : In (s, gs) (m head (m_start mt) None))
    by (rewrite Hhead; apply in_or_app; right; left; reflexivity).
  assert (gs = None) by (apply (m_caps head Hh _ _ _ Hin)). subst gs.
  simpl in Hy. rewrite (run_len_any _ Hdot) in Hy.
  destruct (length (skipn s t) <? 1) eqn:Hlen; [discriminate|].
  apply Nat.ltb_ge in Hlen. rewrite length_skipn in Hlen.
  rewrite !map_map, flat_map_map in Hy. simpl in Hy.
  apply flat_map_first in Hy as (c1 & e & c2 & zs & Hseq & Hbefore & He).
  apply seq_split in Hseq as (Hc1 & Hle & Hlt).
  rewrite length_skipn in Hlt.
  destruct (m bound e (Some (s, e))) as [|eg1 more] eqn:Hbe; [discriminate|].
  assert (Hg1 : snd eg1 = Some (s, e)).
  { apply (m_caps bound Hb e (Some (s, e))). rewrite Hbe. left; reflexivity. }
  rewrite Hg1 in He. injection He as He Hg _.
  exists s, e. repeat split; try assumption; try lia; try congruence.
  intros p Hsp Hpe.
  assert (Hp : In p c1) by (rewrite Hc1; apply in_seq; lia).
  specialize (Hbefore p Hp). simpl in Hbefore.
  destruct (m bound p (Some (s, p))); [reflexivity|discriminate].
Qed.

(** *** Literal words and alternatives *)

Lemma skipn_cons (p : nat) :
  skipn p t = match nth_error t p with
              | Some c => c :: skipn (S p) t
              | None => []
              end.
Proof.
  revert p. induction t as [|c s IH]; intros [|p]; simpl; try reflexivity.
  apply IH.
Qed.

Lemma m_lit (kw : pystr) :
  forall p g,
    m (fold_right (fun c r => Seq (One (ALit c)) r) Eps kw) p g
    = if starts_with fl kw (skipn p t) then [(p + length kw, g)] else [].
Proof.
  induction kw as [|k kw IH]; intros p g.
  - simpl. now rewrite Nat.add_0_r.
  - cbn [fold_right Re.m]. rewrite (skipn_cons p).
    destruct (nth_error t p) as [c|]; [|reflexivity].
    cbn [atom_match starts_with].
    destruct (char_eq fl k c); [|reflexivity].
    cbn [flat_map fst snd andb]. rewrite app_nil_r, IH.
    cbn [length]. now rewrite Nat.add_succ_r.
Qed.

Lemma m_alt_of (rs : list regex) :
  forall r r' p g,
    In r' (r :: rs) -> m r' p g <> [] -> m (alt_of r rs) p g <> [].
Proof.
  induction rs as [|r1 rs IH]; intros r r' p g Hin Hm.
  - destruct Hin as [<-|[]]. exact Hm.
  - cbn [alt_of Re.m]. intro Happ. apply app_eq_nil in Happ as [Hr Hrest].
    destruct Hin as [<-|Hin]; [contradiction|].
    exact (IH r1 r' p g Hin Hm Hrest).
Qed.

(** *** Every candidate end lies in the text and spans a word of the pattern *)

Lemma firstn_add {A} (a b : nat) (l : list A) :
  firstn (a + b) l = firstn a l ++ firstn b (skipn a l).
Proof.
  revert l. induction a as [|a IH]; intros [|x l]; simpl;
    try reflexivity; [now rewrite firstn_nil|now rewrite IH].
Qed.

Lemma slice_split (p q e : nat) :
  p <= q -> q <= e -> slice p e t = slice p q t ++ slice q e t.
Proof.
  intros Hpq Hqe. unfold slice.
  replace (e - p) with ((q - p) + (e - q)) by lia.
  rewrite firstn_add, skipn_skipn.
  replace (q - p + p) with q by lia. reflexivity.
Qed.

Lemma run_len_le (a : atom) (s : pystr) : run_len fl a s <= length s.
Proof.
  induction s as [|c s IH]; simpl; [lia|].
  destruct (atom_match fl a c); simpl; lia.
Qed.

Lemma run_len_firstn (a : atom) (s : pystr) :
  forall k, k <= run_len fl a s ->
    Forall (fun c => atom_match fl a c = true) (firstn k s).
Proof.
  induction s as [|c s IH]; intros [|k] Hk; simpl in *.
  - apply Forall_nil.
  - apply Forall_nil.
  - apply Forall_nil.
  - destruct (atom_match fl a c) eqn:Hc; [|lia].
    apply Forall_cons; [exact Hc|apply IH; lia].
Qed.

Lemma m_rep_ends (gr : bool) (mn : nat) (a : atom) (p : nat) (g : caps)
    (eg : nat * caps) :
  In eg (m (Rep gr mn a) p g) ->
  snd eg = g /\ p + mn <= fst eg /\ fst eg <= p + run_len fl a (skipn p t).
Proof.
  simpl. destruct (_ <? _) eqn:Hlt; [contradiction|].
  apply Nat.ltb_ge in Hlt.
  intro H. apply in_map_iff in H as (e & <- & He). simpl.
  assert (In e (seq (p + mn) (run_len fl a (skipn p t) - mn + 1)))
    by (destruct gr; [now apply in_rev|exact He]).
  apply in_seq in H. repeat split; lia.
Qed.

Lemma m_sound (r : regex) :
  forall p g eg,
    p <= length t ->
    In eg (m r p g) ->
    p <= fst eg /\ fst eg <= length t /\ denote fl r (slice p (fst eg) t).
Proof.
  induction r as [ | a | r1 IH1 r2 IH2 | r1 IH1 r2 IH2 | gr mn a
                   | r1 IH1 | r1 IH1 | | | ]; intros p g eg Hp Hin.
  - destruct Hin as [<-|[]]. simpl. unfold slice.
    rewrite Nat.sub_diag. repeat split; auto.
  - simpl in Hin. destruct (nth_error t p) as [c|] eqn:Hc; [|contradiction].
    destruct (atom_match fl a c) eqn:Ha; [|contradiction].
    destruct Hin as [<-|[]]. simpl.
    assert (p < length t) by (apply nth_error_Some; congruence).
    repeat split; try lia.
    exists c. split; [|exact Ha].
    unfold slice. rewrite (skipn_cons p), Hc.
    replace (S p - p) with 1 by lia. reflexivity.
  - simpl in Hin. apply in_flat_map in Hin as (eg1 & Hin1 & Hin2).
    destruct (IH1 _ _ _ Hp Hin1) as (H1a & H1b & H1c).
    destruct (IH2 _ _ _ H1b Hin2) as (H2a & H2b & H2c).
    repeat split; try lia.
    exists (slice p (fst eg1) t), (slice (fst eg1) (fst eg) t).
    split; [now apply slice_split|]. split; assumption.
  - simpl in Hin. apply in_app_or in Hin as [Hin|Hin].
    + destruct (IH1 _ _ _ Hp Hin) as (Ha & Hb & Hc). simpl. auto.
    + destruct (IH2 _ _ _ Hp Hin) as (Ha & Hb & Hc). simpl. auto.
  - destruct (m_rep_ends _ _ _ _ _ _ Hin) as (_ & Hlo & Hhi).
    pose proof (run_len_le a (skipn p t)) as Hle.
    rewrite length_skipn in Hle.
    repeat split; try lia.
    + unfold slice. rewrite length_firstn, length_skipn. lia.
    + unfold slice. apply run_len_firstn. lia.
  - simpl in Hin. apply in_map_iff in Hin as (eg1 & <- & Hin1). simpl.
    exact (IH1 _ _ _ Hp Hin1).
  - simpl in Hin. destruct (m r1 p g); [contradiction|].
    destruct Hin as [<-|[]]. simpl. unfold slice.
    rewrite Nat.sub_diag. repeat split; auto.
  - simpl in Hin. destruct (at_bol fl t p); [|contradiction].
    destruct Hin as [<-|[]]. simpl. unfold slice.
    rewrite Nat.sub_diag. repeat split; auto.
  - simpl in Hin. destruct (at_eol fl t p); [|contradiction].
    destruct Hin as [<-|[]]. simpl. unfold slice.
    rewrite Nat.sub_diag. repeat split; auto.
  - simpl in Hin. destruct (p =? length t); [|contradiction].
    destruct Hin as [<-|[]]. simpl. unfold slice.
    rewrite Nat.sub_diag. repeat split; auto.
Qed.

(** *** Whether a pattern matches at a position, read on the rest of the text *)

Local Abbreviation hits := (Props.hits fl t).

Lemma hits_alt (r1 r2 : regex) (p : nat) (g : caps) :
  hits (Alt r1 r2) p g = hits r1 p g || hits r2 p g.
Proof.
  unfold Props.hits. simpl.
  destruct (m r1 p g); simpl; [|reflexivity]. reflexivity.
Qed.

Lemma hits_lit (kw : pystr) (p : nat) (g : caps) :
  hits (fold_right (fun c r => Seq (One (ALit c)) r) Eps kw) p g
  = starts_with fl kw (skipn p t).
Proof.
  unfold Props.hits. rewrite m_lit.
  destruct (starts_with fl kw (skipn p t)); reflexivity.
Qed.

Lemma hits_lit_then (kw : pystr) (r : regex) (f : pystr -> bool) :
  (forall p g, hits r p g = f (skipn p t)) ->
  forall p g,
    hits (Seq (fold_right (fun c r => Seq (One (ALit c)) r) Eps kw) r) p g
    = starts_with fl kw (skipn p t) && f (skipn (length kw) (skipn p t)).
Proof.
  intros Hr p g. unfold Props.hits. cbn [Re.m]. rewrite m_lit.
  destruct (starts_with fl kw (skipn p t)); [|reflexivity].
  cbn [flat_map fst snd andb]. rewrite app_nil_r, skipn_skipn.
  rewrite (Nat.add_comm (length kw) p). apply Hr.
Qed.

Lemma run_len_inside (a : atom) (s : pystr) :
  forall k, k < run_len fl a s ->
    exists c s', skipn k s = c :: s' /\ atom_match fl a c = true.
Proof.
  induction s as [|c s IH]; intros k Hk; simpl in Hk; [lia|].
  destruct (atom_match fl a c) eqn:Hc; [|lia].
  destruct k as [|k]; simpl; [eauto|]. apply IH. lia.
Qed.

Lemma lstrip_run_len (s : pystr) :
  lstrip s = skipn (run_len fl ASpace s) s.
Proof.
  induction s as [|c s IH]; simpl; [reflexivity|].
  destruct (isspace c); [exact IH|reflexivity].
Qed.

Lemma rev_seq_succ (a k : nat) :
  rev (seq a (k + 1)) = (a + k) :: rev (seq a k).
Proof.
  rewrite Nat.add_1_r, seq_S, rev_app_distr. reflexivity.
Qed.

Lemma hits_spaces_then (mn : nat) (r : regex) (f : pystr -> bool) :
  (forall p g, hits r p g = f (skipn p t)) ->
  (forall c s, isspace c = true -> f (c :: s) = false) ->
  forall p g,
    hits (Seq (Rep true mn ASpace) r) p g
    = (mn <=? run_len fl ASpace (skipn p t)) && f (lstrip (skipn p t)).
Proof.
  intros Hr Hf p g. unfold Props.hits. cbn [Re.m].
  set (n := run_len fl ASpace (skipn p t)).
  rewrite Nat.leb_antisym. destruct (n <? mn) eqn:Hlt; [reflexivity|].
  apply Nat.ltb_ge in Hlt. cbn [negb andb].
  rewrite rev_seq_succ, flat_map_map. cbn [flat_map fst snd].
  replace (p + mn + (n - mn)) with (p + n) by lia.
  rewrite flat_map_all_nil.
  - rewrite app_nil_r, lstrip_run_len, skipn_skipn.
    fold n. rewrite (Nat.add_comm n p). apply Hr.
  - intros e He. apply in_rev, in_seq in He.
    destruct (run_len_inside ASpace (skipn p t) (e - p)) as (c & s' & Hsk & Hc);
      [fold n; lia|].
    rewrite skipn_skipn in Hsk. replace (e - p + p) with e in Hsk by lia.
    specialize (Hr e g). rewrite Hsk, (Hf c s' Hc) in Hr.
    unfold Props.hits in Hr. destruct (m r e g); [reflexivity|discriminate].
Qed.

Lemma first_is_space_run_len (s : pystr) :
  (1 <=? run_len fl ASpace s) = first_is_space s.
Proof.
  destruct s as [|c s]; simpl; [reflexivity|].
  destruct (isspace c); reflexivity.
Qed.

Lemma hits_endz (p : nat) (g : caps) :
  p <= length t -> hits EndZ p g = at_end (skipn p t).
Proof.
  intro Hp. unfold Props.hits, at_end. simpl.
  destruct (p =? length t) eqn:He.
  - apply Nat.eqb_eq in He. subst p. now rewrite skipn_all.
  - apply Nat.eqb_neq in He.
    destruct (skipn p t) eqn:Hs; [|reflexivity].
    apply (f_equal (@length ascii)) in Hs. rewrite length_skipn in Hs.
    simpl in Hs. lia.
Qed.

(** *** The fuel of the replacement and splitting loops is enough *)

Lemma search_at_bounds (r : regex) (i : nat) (adv : bool) (mt : rmatch) :
  i <= length t ->
  search_at fl t r i adv = Some mt ->
  i <= m_start mt /\ m_start mt <= m_end mt /\ m_end mt <= length t
  /\ (adv = true -> i < m_end mt).
Proof.
  intros Hi. unfold search_at.
  destruct (attempt fl t r adv i) as [x|] eqn:Ha.
  - intro H. injection H as ->. unfold attempt in Ha.
    set (cands := m r i None) in Ha.
    assert (Hc : exists eg rest,
               (if adv then filter (fun eg => negb (fst eg =? i)) cands
                else cands) = eg :: rest
               /\ m_start mt = i /\ m_end mt = fst eg).
    { destruct (if adv then _ else _) as [|eg rest]; [discriminate|].
      injection Ha as <-. simpl. eauto. }
    destruct Hc as (eg & rest & Hl & -> & ->).
    assert (Hin : In eg cands /\ (adv = true -> fst eg <> i)).
    { destruct adv.
      - assert (In eg (filter (fun eg => negb (fst eg =? i)) cands))
          by (rewrite Hl; left; reflexivity).
        apply filter_In in H as [Hin Hne]. split; [exact Hin|].
        intros _. apply negb_true_iff, Nat.eqb_neq in Hne. exact Hne.
      - split; [rewrite Hl; left; reflexivity|discriminate]. }
    destruct Hin as [Hin Hne].
    destruct (m_sound r _ _ _ Hi Hin) as (Hlo & Hhi & _).
    repeat split; try lia. intro Hadv. specialize (Hne Hadv). lia.
  - intro H. destruct (first_attempt_some _ _ _ H) as [Hin [rest Hm]].
    apply in_seq in Hin.
    assert (Hp : m_start mt <= length t) by lia.
    assert (Hm' : In (m_end mt, m_group mt) (m r (m_start mt) None))
      by (rewrite Hm; left; reflexivity).
    destruct (m_sound r _ _ _ Hp Hm') as (Hlo & Hhi & _). simpl in *.
    repeat split; lia.
Qed.

Local Abbreviation fuel_needed := (Props.fuel_needed t).

Lemma fuel_needed_next (r : regex) (i : nat) (adv : bool) (mt : rmatch) :
  i <= length t ->
  search_at fl t r i adv = Some mt ->
  m_end mt <= length t
  /\ S (fuel_needed (m_end mt) (m_end mt =? m_start mt)) <= fuel_needed i adv.
Proof.
  intros Hi Hs.
  destruct (search_at_bounds _ _ _ _ Hi Hs) as (H1 & H2 & H3 & H4).
  split; [exact H3|]. unfold Props.fuel_needed.
  destruct (m_end mt =? m_start mt) eqn:He.
  - apply Nat.eqb_eq in He. destruct adv; [specialize (H4 eq_refl)|]; lia.
  - apply Nat.eqb_neq in He. destruct adv; lia.
Qed.

(** With the fuel it is given, [re.sub] stops because no match is left,
    never because the fuel is spent: more fuel gives the same result. *)
Lemma sub_loop_fuel (r : regex) (repl : pystr) (f1 : nat) :
  forall f2 i adv,
    i <= length t ->
    fuel_needed i adv <= f1 ->
    fuel_needed i adv <= f2 ->
    sub_loop fl t r repl f1 i adv = sub_loop fl t r repl f2 i adv.
Proof.
  induction f1 as [|f1 IH]; intros f2 i adv Hi H1 H2.
  - unfold Props.fuel_needed in H1. destruct adv; lia.
  - destruct f2 as [|f2]; [unfold Props.fuel_needed in H2; destruct adv; lia|].
    simpl. destruct (search_at fl t r i adv) as [mt|] eqn:Hs; [|reflexivity].
    destruct (fuel_needed_next _ _ _ _ Hi Hs) as [He Hn].
    do 2 f_equal. apply IH; [exact He|lia|lia].
Qed.

Lemma split_loop_fuel (r : regex) (f1 : nat) :
  forall f2 i adv,
    i <= length t ->
    fuel_needed i adv <= f1 ->
    fuel_needed i adv <= f2 ->
    split_loop fl t r f1 i adv = split_loop fl t r f2 i adv.
Proof.
  induction f1 as [|f1 IH]; intros f2 i adv Hi H1 H2.
  - unfold Props.fuel_needed in H1. destruct adv; lia.
  - destruct f2 as [|f2]; [unfold Props.fuel_needed in H2; destruct adv; lia|].
    simpl. destruct (search_at fl t r i adv) as [mt|] eqn:Hs; [|reflexivity].
    destruct (fuel_needed_next _ _ _ _ Hi Hs) as [He Hn].
    f_equal. apply IH; [exact He|lia|lia].
Qed.

End Matcher.

Lemma sub_fuel_enough (fl : flags) (r : regex) (repl t : pystr) (k : nat) :
  Re.sub fl r repl t = sub_loop fl t r repl (loop_fuel t + k) 0 false.
Proof.
  unfold Re.sub. apply sub_loop_fuel; unfold Props.fuel_needed, loop_fuel; lia.
Qed.

Lemma split_fuel_enough (fl : flags) (r : regex) (t : pystr) (k : nat) :
  Re.split fl r t = split_loop fl t r (loop_fuel t + k) 0 false.
Proof.
  unfold Re.split. apply split_loop_fuel; unfold Props.fuel_needed, loop_fuel; lia.
Qed.

End ReFacts.

(* ================================================================= *)
(** ** The extractor: names *)

Module NameFacts.

Lemma str_eqb_eq (a b : pystr) : str_eqb a b = true <-> a = b.
Proof.
  revert b. induction a as [|x a IH]; intros [|y b]; simpl;
    try (split; [discriminate|discriminate]); [tauto|].
  rewrite andb_true_iff, Ascii.eqb_eq, IH.
  split; [intros [-> ->]; reflexivity|intro H; injection H; auto].
Qed.

Lemma str_eqb_refl (a : pystr) : str_eqb a a = true.
Proof. now apply str_eqb_eq. Qed.

Lemma str_in_In (x : pystr) (xs : list pystr) : str_in x xs = true <-> In x xs.
Proof.
  unfold str_in. rewrite existsb_exists. split.
  - intros (y & Hy & He). apply str_eqb_eq in He. now subst.
  - intro H. exists x. split; [exact H|apply str_eqb_refl].
Qed.

Lemma str_in_app (x : pystr) (xs ys : list pystr) :
  str_in x (xs ++ ys) = str_in x xs || str_in x ys.
Proof. unfold str_in. apply existsb_app. Qed.

(** *** The loop over the parts, seen as a loop over the candidates *)

Lemma fold_add_part (parts : list pystr) :
  forall names,
    fold_left add_part parts names
    = fold_left add_candidate (candidates parts) names.
Proof.
  unfold candidates.
  induction parts as [|part parts IH]; intro names; [reflexivity|].
  cbn [fold_left map filter]. rewrite IH.
  unfold add_part.
  destruct (nonempty (strip part)) eqn:Hne; [|reflexivity].
  cbn [map filter]. unfold accepts.
  fold (is_placeholder (clean_name (strip part))).
  destruct (nonempty (clean_name (strip part))
            && negb (is_placeholder (clean_name (strip part)))) eqn:Hok;
    [|reflexivity].
  cbn [fold_left andb].
  replace (add_candidate names (clean_name (strip part)))
    with (if negb (str_in (clean_name (strip part)) names)
          then names ++ [clean_name (strip part)] else names);
    [reflexivity|].
  unfold add_candidate.
  destruct (str_in (clean_name (strip part)) names); reflexivity.
Qed.

Lemma filter_filter {A} (f g : A -> bool) (l : list A) :
  filter f (filter g l) = filter (fun x => g x && f x) l.
Proof.
  induction l as [|a l IH]; simpl; [reflexivity|].
  destruct (g a); simpl; [destruct (f a)|]; now rewrite IH.
Qed.

Lemma fold_add_candidate (xs : list pystr) :
  forall names,
    fold_left add_candidate xs names
    = names ++ filter (fun y => negb (str_in y names)) (keep_first xs).
Proof.
  induction xs as [|x xs IH]; intro names; simpl.
  - now rewrite app_nil_r.
  - rewrite IH. unfold add_candidate.
    destruct (str_in x names) eqn:Hx; simpl.
    + f_equal. rewrite filter_filter. apply filter_ext. intro y.
      destruct (str_eqb y x) eqn:Hyx; simpl; [|reflexivity].
      apply str_eqb_eq in Hyx. subst y. now rewrite Hx.
    + rewrite <- app_assoc. simpl. do 2 f_equal.
      rewrite filter_filter. apply filter_ext. intro y.
      rewrite str_in_app. simpl. unfold str_in at 2. simpl.
      rewrite orb_false_r, negb_orb. apply andb_comm.
Qed.

(** The names collected from the parts are the candidates, each kept at
    its first occurrence. *)
Lemma collect_names_keep_first (parts : list pystr) :
  collect_names parts = keep_first (candidates parts).
Proof.
  unfold collect_names. rewrite fold_add_part, fold_add_candidate.
  cbn [app].
  induction (keep_first (candidates parts)) as [|a l IH]; [reflexivity|].
  change (filter (fun y => negb (str_in y [])) (a :: l))
    with (a :: filter (fun y => negb (str_in y [])) l).
  now rewrite IH.
Qed.

Lemma keep_first_incl (xs : list pystr) (x : pystr) :
  In x (keep_first xs) -> In x xs.
Proof.
  induction xs as [|a xs IH]; simpl; [tauto|].
  intros [->|H]; [auto|]. apply filter_In in H as [H _]. auto.
Qed.

Lemma keep_first_complete (xs : list pystr) (x : pystr) :
  In x xs -> In x (keep_first xs).
Proof.
  induction xs as [|a xs IH]; simpl; [tauto|].
  intros [->|H]; [auto|].
  destruct (str_eqb x a) eqn:Hxa.
  - apply str_eqb_eq in Hxa. auto.
  - right. apply filter_In. split; [auto|]. now rewrite Hxa.
Qed.

Lemma keep_first_NoDup (xs : list pystr) : NoDup (keep_first xs).
Proof.
  induction xs as [|a xs IH]; simpl; constructor.
  - intro H. apply filter_In in H as [_ H].
    now rewrite str_eqb_refl in H.
  - now apply NoDup_filter.
Qed.

Lemma collect_names_NoDup (parts : list pystr) : NoDup (collect_names parts).
Proof. rewrite collect_names_keep_first. apply keep_first_NoDup. Qed.

(** *** Cleaned names begin with a character that is not whitespace *)

Lemma lstrip_head (s : pystr) (a : ascii) (r : pystr) :
  lstrip s = a :: r -> isspace a = false.
Proof.
  induction s as [|c s IH]; simpl; [discriminate|].
  destruct (isspace c) eqn:Hc; [exact IH|].
  intro H. injection H as <- _. exact Hc.
Qed.

Lemma lstrip_snoc (l : pystr) (a : ascii) :
  isspace a = false -> lstrip (l ++ [a]) = lstrip l ++ [a].
Proof.
  intro Ha. induction l as [|c l IH]; simpl.
  - now rewrite Ha.
  - destruct (isspace c); [exact IH|reflexivity].
Qed.

Lemma strip_head (s : pystr) (a : ascii) (r : pystr) :
  strip s = a :: r -> isspace a = false.
Proof.
  unfold strip, rstrip.
  destruct (lstrip s) as [|b l] eqn:Hl; simpl; [discriminate|].
  pose proof (lstrip_head _ _ _ Hl) as Hb.
  rewrite (lstrip_snoc _ _ Hb), rev_app_distr. simpl.
  intro H. injection H as <- _. exact Hb.
Qed.

Lemma sub_spaces_head (a : ascii) (r : pystr) :
  isspace a = false ->
  exists r', Re.sub no_flags ws_plus (str " ") (a :: r) = a :: r'.
Proof.
  intro Ha. unfold Re.sub, loop_fuel.
  replace (2 * length (a :: r) + 2) with (S (2 * length (a :: r) + 1)) by lia.
  cbn [sub_loop]. unfold search_at.
  assert (H0 : attempt no_flags (a :: r) ws_plus false 0 = None).
  { unfold attempt, ws_plus. cbn. rewrite Ha. reflexivity. }
  rewrite H0.
  destruct (first_attempt no_flags (a :: r) ws_plus _) as [mt|] eqn:Hf.
  - destruct (ReFacts.first_attempt_some _ _ _ _ _ Hf) as [Hin _].
    apply in_seq in Hin.
    destruct (m_start mt) as [|k]; [lia|].
    unfold slice. simpl. eauto.
  - simpl. eauto.
Qed.

Lemma clean_name_not_blank (part : pystr) :
  nonempty (clean_name part) = true -> whitespace_only (clean_name part) = false.
Proof.
  unfold clean_name.
  destruct (strip (Re.sub no_flags pat_trailing []
                     (strip (Re.sub no_flags pat_prefix [] part))))
    as [|a r] eqn:Hy.
  - discriminate.
  - intros _. pose proof (strip_head _ _ _ Hy) as Ha.
    destruct (sub_spaces_head a r Ha) as [r' ->].
    unfold whitespace_only. simpl. now rewrite Ha.
Qed.

Lemma candidates_proper (parts : list pystr) (n : pystr) :
  In n (candidates parts) -> proper_name n.
Proof.
  unfold candidates. intro H. apply filter_In in H as [Hin Hok].
  apply andb_true_iff in Hok as [Hne Hph].
  apply in_map_iff in Hin as (part & <- & _).
  repeat split.
  - intro He. now rewrite He in Hne.
  - now apply clean_name_not_blank.
  - now apply negb_true_iff.
Qed.

Lemma collect_names_proper (parts : list pystr) :
  Forall proper_name (collect_names parts).
Proof.
  apply Forall_forall. intros n Hn.
  rewrite collect_names_keep_first in Hn.
  apply (candidates_proper parts). now apply keep_first_incl.
Qed.

End NameFacts.

(* ================================================================= *)
(** ** The extractor: [parse_owners_raw_field] *)

Module ExtractorFacts.

Import NameFacts.

(** A section pattern that matches has bound its group, so that
    [group(1).strip()] is defined. *)
Lemma group1_strip_ok (head bound : regex) (text : pystr) (mt : rmatch) :
  no_group head = true ->
  no_group bound = true ->
  Re.search f_IS (section_pat head bound) text = Some mt ->
  exists s, group1 text mt = Some s /\ group1_strip text mt = Ok (strip s).
Proof.
  intros Hh Hb Hs.
  destruct (ReFacts.section_match f_IS text head bound mt eq_refl Hh Hb Hs)
    as (s & e & Hg & _).
  unfold group1_strip, group1. rewrite Hg. simpl. eauto.
Qed.

(** The result of the body, in closed form. *)
Lemma parse_text_ok (text : pystr) :
  parse_text text =
    Ok {| occupant_count := length (collect_names (occupant_fragments text));
          occupant_names := collect_names (occupant_fragments text);
          tenant_count := length (collect_names (tenant_fragments text));
          tenant_names := collect_names (tenant_fragments text);
          remarks := extract_remarks text |}.
Proof.
  unfold parse_text, occupant_fragments, tenant_fragments, section_text.
  destruct (Re.search f_IS pat_occupants text) as [mo|] eqn:Ho;
    destruct (Re.search f_IS pat_tenants text) as [mt|] eqn:Ht.
  - destruct (group1_strip_ok occupants_head occupants_bound text mo
                eq_refl eq_refl Ho) as (so & -> & ->).
    destruct (group1_strip_ok tenants_head tenants_bound text mt
                eq_refl eq_refl Ht) as (st & -> & ->).
    reflexivity.
  - destruct (group1_strip_ok occupants_head occupants_bound text mo
                eq_refl eq_refl Ho) as (so & -> & ->).
    reflexivity.
  - destruct (group1_strip_ok tenants_head tenants_bound text mt
                eq_refl eq_refl Ht) as (st & -> & ->).
    reflexivity.
  - reflexivity.
Qed.

Lemma parse_ok (v : pyval) :
  parse_owners_raw_field v =
    Ok {| occupant_count :=
            length (collect_names (fragments_of occupant_fragments v));
          occupant_names := collect_names (fragments_of occupant_fragments v);
          tenant_count :=
            length (collect_names (fragments_of tenant_fragments v));
          tenant_names := collect_names (fragments_of tenant_fragments v);
          remarks := remarks_of v |}.
Proof.
  destruct v as [ | | n | b | raw]; try reflexivity.
  unfold parse_owners_raw_field. simpl. apply parse_text_ok.
Qed.

(** C1: for every input the extractor returns, and in what it returns
    [occupant_count] is the length of [occupant_names] and [tenant_count]
    the length of [tenant_names]. *)
Theorem counts_are_lengths :
  forall v : pyval,
    exists r,
      parse_owners_raw_field v = Ok r
      /\ occupant_count r = length (occupant_names r)
      /\ tenant_count r = length (tenant_names r).
Proof.
  intro v. eexists. split; [apply parse_ok|]. split; reflexivity.
Qed.

(** C2: the extractor raises on no input, and on an input that is null
    or not a string it returns the all-default result: zero counts, empty
    name lists, empty remarks. *)
Theorem extractor_never_raises :
  forall v : pyval,
    (exists r, parse_owners_raw_field v = Ok r)
    /\ (pd_isna v = true \/ isinstance_str v = false ->
        parse_owners_raw_field v =
          Ok {| occupant_count := 0; occupant_names := [];
                tenant_count := 0; tenant_names := []; remarks := [] |}).
Proof.
  intro v. split.
  - eexists. apply parse_ok.
  - intros [H|H]; unfold parse_owners_raw_field; rewrite H;
      [|rewrite orb_true_r]; reflexivity.
Qed.

Lemma extractor_never_raises_witness :
  parse_owners_raw_field PyNaN = Ok default_info
  /\ parse_owners_raw_field (PyInt 42) = Ok default_info.
Proof.
  split.
  - apply (proj2 (extractor_never_raises PyNaN)). left. reflexivity.
  - apply (proj2 (extractor_never_raises (PyInt 42))). right. reflexivity.
Defined.

(** C4: on the scenario text the extractor returns the occupants
    Jose Fernandes and Maria Souza, in this order, with count 2, and no
    tenant, with count 0. *)
Theorem scenario_two_occupants_no_tenant :
  exists r,
    parse_owners_raw_field (PyStr scenario_text) = Ok r
    /\ occupant_names r = [str "Jose Fernandes"; str "Maria Souza"]
    /\ occupant_count r = 2
    /\ tenant_names r = []
    /\ tenant_count r = 0.
Proof.
  eexists. split; [vm_compute; reflexivity|].
  repeat split.
Qed.

(** C8: for every input, no returned occupant or tenant name is empty,
    made of whitespace only, or, after lower-casing, one of the
    placeholder tokens nil, null, none, na, n/a, -. *)
Theorem names_are_proper :
  forall v : pyval,
    exists r,
      parse_owners_raw_field v = Ok r
      /\ Forall proper_name (occupant_names r)
      /\ Forall proper_name (tenant_names r).
Proof.
  intro v. eexists. split; [apply parse_ok|].
  split; apply collect_names_proper.
Qed.

(** C9: for every input, each returned name list has no duplicate under
    exact comparison, and it is the sequence of the section's accepted
    fragments, in the order of the text, with every name kept at its first
    occurrence. *)
Theorem names_are_ordered_sets :
  forall v : pyval,
    exists r,
      parse_owners_raw_field v = Ok r
      /\ NoDup (occupant_names r)
      /\ NoDup (tenant_names r)
      /\ occupant_names r
         = keep_first (candidates (fragments_of occupant_fragments v))
      /\ tenant_names r
         = keep_first (candidates (fragments_of tenant_fragments v)).
Proof.
  intro v. eexists. split; [apply parse_ok|]. simpl.
  repeat split; try apply collect_names_NoDup; apply collect_names_keep_first.
Qed.

End ExtractorFacts.

(* ================================================================= *)
(** ** Classification *)

Module ClassifyFacts.

Lemma starts_with_lower (kw w rest : pystr) :
  lower w = lower kw -> starts_with f_I kw (w ++ rest) = true.
Proof.
  revert w. induction kw as [|k kw IH]; intros [|c w] H; simpl in *;
    try discriminate; [reflexivity|].
  injection H as Hc Hw.
  unfold char_eq. simpl. rewrite Hc, Ascii.eqb_refl. simpl. now apply IH.
Qed.

(** A text that holds one of the words, up to case, is matched by the
    alternation of the words. *)
Lemma any_of_contains (words : list string) (kw : string) (pre w post : pystr) :
  In kw words ->
  lower w = lower (str kw) ->
  str_contains (any_of words) (pre ++ w ++ post) = true.
Proof.
  intros Hin Hw. unfold str_contains.
  destruct (Re.search f_I (any_of words) (pre ++ w ++ post)) eqn:Hs;
    [reflexivity|exfalso].
  revert Hs. apply (ReFacts.search_complete f_I _ _ (length pre)).
  - rewrite length_app. lia.
  - unfold any_of.
    destruct (map lit words) as [|r rs] eqn:Hmap.
    + destruct words; [contradiction|discriminate].
    + apply (ReFacts.m_alt_of f_I _ rs r (lit kw)).
      * rewrite <- Hmap. now apply in_map.
      * unfold lit. rewrite ReFacts.m_lit.
        rewrite skipn_app, skipn_all, Nat.sub_diag. cbn [skipn app].
        rewrite (starts_with_lower _ _ _ Hw). discriminate.
Qed.

(** C7: a record whose raw owners text contains Comunidade of Tiswadi is
    classified as comunidade, and one whose raw owners text contains
    Forest Department, Panaji is classified as government. *)
Theorem scenario_classification :
  forall (pre post : pystr) (c : option pystr),
    is_comunidade
      {| owners_raw := Some (pre ++ str "Comunidade of Tiswadi" ++ post);
         communidade := c |} = true
    /\ is_government
      {| owners_raw := Some (pre ++ str "Forest Department, Panaji" ++ post);
         communidade := c |} = true.
Proof.
  intros pre post c. unfold is_comunidade, is_government. simpl owners_raw.
  split.
  - apply (any_of_contains comunidade_variations "Comunidade" pre
             (str "Comunidade") (str " of Tiswadi" ++ post)).
    + unfold comunidade_variations. simpl. tauto.
    + reflexivity.
  - apply (any_of_contains government_keywords "forest" pre
             (str "Forest") (str " Department, Panaji" ++ post)).
    + unfold government_keywords. simpl. tauto.
    + reflexivity.
Qed.

(** C10: the government keyword list holds the word block followed by two
    spaces, so every record whose raw owners text contains, up to case,
    block followed by two space characters is classified as government. *)
Theorem block_two_spaces_is_government :
  In "block  "%string government_keywords
  /\ forall (pre w post : pystr) (c : option pystr),
      lower w = str "block  " ->
      is_government
        {| owners_raw := Some (pre ++ w ++ post); communidade := c |} = true.
Proof.
  assert (Hin : In "block  "%string government_keywords)
    by (unfold government_keywords; simpl; tauto).
  split; [exact Hin|].
  intros pre w post c Hw. unfold is_government. simpl owners_raw.
  now apply (any_of_contains government_keywords "block  ").
Qed.

Lemma block_two_spaces_is_government_witness :
  is_government
    {| owners_raw := Some (str "Plot in Block  C of the estate");
       communidade := None |} = true.
Proof.
  apply (proj2 block_two_spaces_is_government
           (str "Plot in ") (str "Block  ") (str "C of the estate") None).
  reflexivity.
Defined.

End ClassifyFacts.

(* ================================================================= *)
(** ** The extractor: where a section ends *)

Module SectionFacts.

Lemma lower_char_space (c : ascii) : isspace c = true -> lower_char c = c.
Proof.
  destruct c as [b0 b1 b2 b3 b4 b5 b6 b7].
  destruct b0, b1, b2, b3, b4, b5, b6, b7;
    vm_compute; intro H; first [reflexivity | discriminate H].
Qed.

(** A character that is not whitespace, in either case, is matched by no
    whitespace character. *)
Lemma space_not_char (k c : ascii) :
  isspace (lower_char k) = false ->
  isspace c = true ->
  char_eq f_IS k c = false.
Proof.
  intros Hk Hc. unfold char_eq. simpl.
  destruct (Ascii.eqb (lower_char c) (lower_char k)) eqn:He; [|reflexivity].
  apply Ascii.eqb_eq in He. rewrite (lower_char_space c Hc) in He.
  congruence.
Qed.

Lemma starts_with_app (fl : flags) (a b s : pystr) :
  starts_with fl (a ++ b) s = true -> starts_with fl a s = true.
Proof.
  revert s. induction a as [|k a IH]; intros [|c s]; simpl; try easy.
  intro H. apply andb_true_iff in H as [Hk Hrest].
  rewrite Hk. simpl. now apply IH.
Qed.

Section Labels.

Variable t : pystr.

Local Abbreviation hits := (Props.hits f_IS t).

Lemma hits_colon (p : nat) (g : caps) :
  hits (Seq colon Eps) p g = starts_with f_IS (str ":") (skipn p t).
Proof. apply (ReFacts.hits_lit f_IS t (str ":")). Qed.

Lemma hits_spaces_colon (p : nat) (g : caps) :
  hits (Seq ws_star (Seq colon Eps)) p g
  = starts_with f_IS (str ":") (lstrip (skipn p t)).
Proof.
  unfold ws_star.
  rewrite (ReFacts.hits_spaces_then f_IS t 0 (Seq colon Eps)
             (starts_with f_IS (str ":"))).
  - reflexivity.
  - intros q g'. apply hits_colon.
  - intros c s Hc. simpl. now rewrite space_not_char.
Qed.

Lemma hits_tenants_label (p : nat) (g : caps) :
  hits tenants_label p g = tenants_label_at (skipn p t).
Proof.
  unfold tenants_label, tenants_label_at, cat, lit. cbn [fold_right].
  rewrite (ReFacts.hits_lit_then f_IS t (str "Tenants") _
     (fun s => first_is_space s
               && (starts_with f_IS (str "names") (lstrip s)
                   && starts_with f_IS (str ":") (lstrip (skipn 5 (lstrip s)))))).
  { reflexivity. }
  intros q g1. unfold ws_plus.
  rewrite (ReFacts.hits_spaces_then f_IS t 1 _
     (fun s => starts_with f_IS (str "names") s
               && starts_with f_IS (str ":") (lstrip (skipn 5 s)))).
  - now rewrite ReFacts.first_is_space_run_len.
  - intros q2 g2.
    rewrite (ReFacts.hits_lit_then f_IS t (str "names") _
               (fun s => starts_with f_IS (str ":") (lstrip s))).
    + reflexivity.
    + intros q3 g3. apply hits_spaces_colon.
  - intros c s Hc.
    change (starts_with f_IS (str "names") (c :: s))
      with (char_eq f_IS "n" c && starts_with f_IS (str "ames") s).
    now rewrite space_not_char.
Qed.

Lemma hits_total_area_label (p : nat) (g : caps) :
  hits total_area_label p g = total_area_label_at (skipn p t).
Proof.
  unfold total_area_label, total_area_label_at, cat, lit. cbn [fold_right].
  rewrite (ReFacts.hits_lit_then f_IS t (str "Total Area") _
             (fun s => starts_with f_IS (str ":") (lstrip s))).
  - reflexivity.
  - intros q g1. apply hits_spaces_colon.
Qed.

Lemma hits_dashes (p : nat) (g : caps) :
  hits (lit "-------") p g = dashes_at 7 (skipn p t)
  /\ hits (lit "---------") p g = dashes_at 9 (skipn p t).
Proof. split; apply ReFacts.hits_lit. Qed.

Lemma dashes_9_7 (s : pystr) :
  dashes_at 7 s || dashes_at 9 s = dashes_at 7 s.
Proof.
  destruct (dashes_at 9 s) eqn:H9; [|apply orb_false_r].
  unfold dashes_at in *.
  change (repeat "-"%char 9) with (repeat "-"%char 7 ++ repeat "-"%char 2) in H9.
  rewrite (starts_with_app _ _ _ _ H9). reflexivity.
Qed.

(** The look-ahead of the occupants pattern succeeds exactly at a
    following label, at seven dashes and at the end of the text. *)
Lemma hits_occupants_bound (p : nat) (g : caps) :
  p <= length t ->
  hits occupants_bound p g = occupants_end_at (skipn p t).
Proof.
  intro Hp. unfold occupants_bound, occupants_end_at. cbn [alt_of].
  rewrite !ReFacts.hits_alt, hits_tenants_label, hits_total_area_label.
  destruct (hits_dashes p g) as [-> ->].
  rewrite (ReFacts.hits_endz f_IS t p g Hp).
  pose proof (dashes_9_7 (skipn p t)) as H97.
  destruct (tenants_label_at (skipn p t)), (total_area_label_at (skipn p t)),
    (dashes_at 7 (skipn p t)), (dashes_at 9 (skipn p t)), (at_end (skipn p t));
    first [reflexivity | discriminate H97].
Qed.

Lemma hits_tenants_bound (p : nat) (g : caps) :
  p <= length t ->
  hits tenants_bound p g = tenants_end_at (skipn p t).
Proof.
  intro Hp. unfold tenants_bound, tenants_end_at. cbn [alt_of].
  rewrite !ReFacts.hits_alt, hits_total_area_label.
  destruct (hits_dashes p g) as [-> ->].
  rewrite (ReFacts.hits_endz f_IS t p g Hp).
  pose proof (dashes_9_7 (skipn p t)) as H97.
  destruct (total_area_label_at (skipn p t)),
    (dashes_at 7 (skipn p t)), (dashes_at 9 (skipn p t)), (at_end (skipn p t));
    first [reflexivity | discriminate H97].
Qed.

(** A section pattern whose look-ahead is read by [bound_at] cuts its
    section at the nearest boundary. *)
Lemma section_ends_at_nearest (head bound : regex) (bound_at : pystr -> bool) :
  no_group head = true ->
  no_group bound = true ->
  (forall p g, p <= length t -> hits bound p g = bound_at (skipn p t)) ->
  ends_at_nearest head bound_at 1 t
    (Re.search f_IS (section_pat head bound) t).
Proof.
  intros Hh Hb Hbound mt Hs.
  destruct (ReFacts.section_match f_IS t head bound mt eq_refl Hh Hb Hs)
    as (s & e & Hg & He & Hin & Hse & Hel & Hat & Hbefore).
  destruct (ReFacts.search_some _ _ _ _ Hs) as [Hi _].
  destruct (ReFacts.m_sound f_IS t head _ _ _ Hi Hin) as (His & _ & Hden).
  simpl in His, Hden.
  exists s, e. repeat split; try assumption.
  - rewrite <- (Hbound e (Some (s, e)) Hel). unfold Props.hits.
    destruct (Re.m f_IS t bound e (Some (s, e))); [contradiction|reflexivity].
  - intros p Hsp Hpe.
    rewrite <- (Hbound p (Some (s, p))) by lia. unfold Props.hits.
    rewrite (Hbefore p) by lia. reflexivity.
Qed.

End Labels.

(** C3, as the code has it by design: the occupants section begins after
    the label Occupants Names, its colon and the whitespace around it,
    and, when no boundary stands at its first character, it is not empty
    and runs up to, not including, the nearest position from its first
    character on where the text goes on with the label Tenants names:,
    the label Total Area:, seven dashes, or ends (labels in any case,
    the section spanning newlines); the tenants section is cut in the
    same way by Total Area:, seven dashes or the end of the text. *)
Theorem sections_run_to_nearest_boundary :
  forall text : pystr,
    runs_to_nearest occupants_head occupants_end_at text
      (Re.search f_IS pat_occupants text)
    /\ runs_to_nearest tenants_head tenants_end_at text
      (Re.search f_IS pat_tenants text).
Proof.
  assert (Hgen : forall text head bound_at found,
             ends_at_nearest head bound_at 1 text found ->
             runs_to_nearest head bound_at text found).
  { intros text head bound_at found H mt Hfound.
    destruct (H mt Hfound)
      as (s & e & Hg & He & Hlo & Hse & Hel & Hden & Hend & Hnear).
    exists s, e. repeat split; try assumption.
    intros p Hsp Hpe.
    destruct (Nat.eq_dec p s) as [->|Hne]; [assumption|].
    apply Hnear; lia. }
  intro text. split; apply Hgen.
  - apply section_ends_at_nearest; try reflexivity.
    intros p g Hp. now apply hits_occupants_bound.
  - apply section_ends_at_nearest; try reflexivity.
    intros p g Hp. now apply hits_tenants_bound.
Qed.

Lemma sections_run_to_nearest_boundary_witness :
  17 < 54
  /\ occupants_end_at (skipn 54 scenario_text) = true
  /\ (forall p, 17 <= p -> p < 54 ->
        occupants_end_at (skipn p scenario_text) = false).
Proof.
  destruct (proj1 (sections_run_to_nearest_boundary scenario_text)
              {| m_start := 0; m_end := 54; m_group := Some (17, 54) |})
    as (s & e & Hg & _ & _ & _ & _ & Hrun).
  - vm_compute. reflexivity.
  - injection Hg as <- <-. apply Hrun. vm_compute. reflexivity.
Defined.

(** C3 as stated fails.  With a rule of five or more dash or equals
    characters counted as a boundary, neither section of the first sample
    text ends at its nearest boundary: the occupants section runs over
    five dashes and the tenants section over five equals signs.  And with
    the boundaries of the code, a boundary that stands right after the
    label does not end the section: in the second sample text the
    occupants section runs over the tenants label to the end. *)
Lemma short_rules_do_not_end_sections :
  ~ ends_at_nearest occupants_head spec_occupants_end_at 0 short_rules_text
      (Re.search f_IS pat_occupants short_rules_text)
  /\ ~ ends_at_nearest tenants_head spec_tenants_end_at 0 short_rules_text
      (Re.search f_IS pat_tenants short_rules_text)
  /\ ~ ends_at_nearest occupants_head occupants_end_at 0 empty_occupants_text
      (Re.search f_IS pat_occupants empty_occupants_text).
Proof.
  split; [|split]; intro H.
  - destruct (H {| m_start := 0; m_end := 27; m_group := Some (17, 27) |})
      as (s & e & Hg & _ & _ & _ & _ & _ & _ & Hnear);
      [vm_compute; reflexivity|].
    injection Hg as <- <-.
    specialize (Hnear 19). vm_compute in Hnear.
    assert (true = false) by (apply Hnear; lia). discriminate.
  - destruct (H {| m_start := 27; m_end := 51; m_group := Some (42, 51) |})
      as (s & e & Hg & _ & _ & _ & _ & _ & _ & Hnear);
      [vm_compute; reflexivity|].
    injection Hg as <- <-.
    specialize (Hnear 44). vm_compute in Hnear.
    assert (true = false) by (apply Hnear; lia). discriminate.
  - destruct (H {| m_start := 0; m_end := 33; m_group := Some (17, 33) |})
      as (s & e & Hg & _ & _ & _ & _ & _ & _ & Hnear);
      [vm_compute; reflexivity|].
    injection Hg as <- <-.
    specialize (Hnear 17). vm_compute in Hnear.
    assert (true = false) by (apply Hnear; lia). discriminate.
Qed.

End SectionFacts.

(* ================================================================= *)
(** ** The reassembler: what every output keeps *)

Module ReassemblerMore.

Import ReassemblerFacts.

Lemma count_char_app (c : ascii) (a b : pystr) :
  count_char c (a ++ b) = count_char c a + count_char c b.
Proof. unfold count_char. now rewrite filter_app, length_app. Qed.

Lemma count_char_join_space (parts : list pystr) :
  count_char dquote (join (str " ") parts)
  = list_sum (map (count_char dquote) parts).
Proof.
  induction parts as [|p ps IH]; [reflexivity|].
  destruct ps as [|q ps].
  - simpl. lia.
  - change (join (str " ") (p :: q :: ps))
      with (p ++ str " " ++ join (str " ") (q :: ps)).
    rewrite !count_char_app, IH. reflexivity.
Qed.

Lemma quotes_in_app (xs ys : list pystr) :
  quotes_in (xs ++ ys) = quotes_in xs + quotes_in ys.
Proof. unfold quotes_in. now rewrite map_app, list_sum_app. Qed.

(** A string that holds a character that is not whitespace is not blank. *)
Lemma lstrip_keeps (s : pystr) (c : ascii) :
  In c s -> isspace c = false -> In c (lstrip s).
Proof.
  induction s as [|x s IH]; simpl; [tauto|].
  intros [->|Hin] Hc.
  - rewrite Hc. left; reflexivity.
  - destruct (isspace x); [auto|right; exact Hin].
Qed.

Lemma strip_keeps (s : pystr) (c : ascii) :
  In c s -> isspace c = false -> In c (strip s).
Proof.
  intros Hin Hc. unfold strip, rstrip.
  rewrite <- in_rev. apply lstrip_keeps; [|exact Hc].
  rewrite <- in_rev. now apply lstrip_keeps.
Qed.

Lemma count_char_pos (c : ascii) (s : pystr) :
  0 < count_char c s -> In c s.
Proof.
  unfold count_char. induction s as [|x s IH]; simpl; [lia|].
  destruct (Ascii.eqb c x) eqn:He.
  - apply Ascii.eqb_eq in He. auto.
  - auto.
Qed.

Lemma quoted_nonblank (s : pystr) :
  0 < count_char dquote s -> nonblank s = true.
Proof.
  intro H. unfold nonblank.
  assert (Hin : In dquote (strip s))
    by (apply strip_keeps; [now apply count_char_pos|reflexivity]).
  destruct (strip s); [contradiction|reflexivity].
Qed.

Lemma reassembler_inv_init : reassembler_inv init.
Proof. split; [constructor|discriminate]. Qed.

Lemma reassembler_inv_step (st : state) (line : pystr) : reassembler_inv st -> reassembler_inv (step st line).
Proof.
  intros [Hout Hacc]. unfold step.
  destruct (in_multiline_field st) eqn:Hin; cbn [negb].
  - specialize (Hacc eq_refl).
    destruct (odd_quotes line) eqn:Hq; split;
      cbn [output_lines in_multiline_field multiline_content].
    + apply Forall_app. split; [exact Hout|].
      rewrite odd_quotes_odd in Hq.
      assert (Hsum : count_char dquote
                       (join (str " ") (multiline_content st ++ [line]))
                     = quotes_in (multiline_content st) + count_char dquote line).
      { rewrite count_char_join_space. fold (quotes_in (multiline_content st ++ [line])).
        rewrite quotes_in_app. unfold quotes_in at 2. simpl. lia. }
      constructor; [|constructor]. split.
      * unfold balanced. rewrite Hsum, Nat.even_add.
        rewrite <- !Nat.negb_odd, Hacc, Hq. reflexivity.
      * apply quoted_nonblank. rewrite Hsum.
        destruct (count_char dquote line); [discriminate Hq|lia].
    + discriminate.
    + exact Hout.
    + intros _. rewrite quotes_in_app, Nat.odd_add, Hacc.
      unfold quotes_in. simpl. rewrite Nat.add_0_r.
      rewrite odd_quotes_odd in Hq. rewrite Hq. reflexivity.
  - destruct (odd_quotes line) eqn:Hq.
    + split; cbn [output_lines in_multiline_field multiline_content];
        [exact Hout|].
      intros _. unfold quotes_in. simpl. rewrite Nat.add_0_r.
      now rewrite <- odd_quotes_odd.
    + destruct (nonempty (strip line)) eqn:Hne.
      * split; cbn [output_lines in_multiline_field multiline_content];
          [|discriminate].
        apply Forall_app. split; [exact Hout|].
        constructor; [|constructor]. split; [|exact Hne].
        unfold balanced. rewrite <- Nat.negb_odd, <- odd_quotes_odd, Hq.
        reflexivity.
      * split; [exact Hout|]. rewrite Hin. discriminate.
Qed.

Lemma reassembler_inv_run (lines : list pystr) : forall st, reassembler_inv st -> reassembler_inv (run st lines).
Proof.
  induction lines as [|l lines IH]; intros st H; [exact H|].
  apply (IH (step st l)). now apply reassembler_inv_step.
Qed.

(** X1: Every logical line that the reassembler emits holds an even number
    of double quotes and is not blank, whatever the input. *)
Theorem output_lines_balanced_nonblank :
  forall lines : list pystr,
    Forall (fun l => balanced l = true /\ nonblank l = true) (reassemble lines).
Proof.
  intro lines. apply (reassembler_inv_run lines init reassembler_inv_init).
Qed.

(** From a state outside a quoted field, lines with an even number of
    double quotes are emitted one by one, the blank ones left out. *)
Lemma run_all_balanced (lines : list pystr) :
  forall st,
    in_multiline_field st = false ->
    Forall (fun l => balanced l = true) lines ->
    output_lines (run st lines) = output_lines st ++ filter nonblank lines
    /\ in_multiline_field (run st lines) = false.
Proof.
  induction lines as [|l lines IH]; intros st Hout Hall.
  - simpl. now rewrite app_nil_r.
  - inversion Hall as [|? ? Hl Hrest]; subst.
    change (run st (l :: lines)) with (run (step st l) lines).
    assert (Hq : odd_quotes l = false) by (now apply odd_quotes_even).
    cbn [filter]. change (nonblank l) with (nonempty (strip l)).
    destruct (nonempty (strip l)) eqn:Hne.
    + rewrite (step_plain st l Hout Hq Hne).
      destruct (IH {| output_lines := output_lines st ++ [l];
                      in_multiline_field := false;
                      multiline_content := multiline_content st |}
                  eq_refl Hrest) as [-> ->].
      cbn [output_lines]. now rewrite <- app_assoc.
    + assert (Hs : step st l = st)
        by (unfold step; rewrite Hout, Hq, Hne; reflexivity).
      rewrite Hs. exact (IH st Hout Hrest).
Qed.

(** X2: Without a line that opens a quoted field nothing is merged: the
    logical lines are the input lines that are not blank, in order. *)
Theorem balanced_lines_pass_through :
  forall lines : list pystr,
    Forall (fun l => balanced l = true) lines ->
    reassemble lines = filter nonblank lines.
Proof.
  intros lines Hall.
  destruct (run_all_balanced lines init eq_refl Hall) as [H _]. exact H.
Qed.

Lemma balanced_lines_pass_through_witness :
  reassemble [str "a,b"; []; str "  "; str "c,d"] = [str "a,b"; str "c,d"].
Proof.
  apply (balanced_lines_pass_through [str "a,b"; []; str "  "; str "c,d"]).
  repeat constructor.
Defined.

(** Reassembling what was reassembled changes nothing. *)
Theorem reassemble_idempotent :
  forall lines : list pystr,
    reassemble (reassemble lines) = reassemble lines.
Proof.
  intro lines.
  pose proof (output_lines_balanced_nonblank lines) as H.
  rewrite balanced_lines_pass_through.
  - induction H as [|l ls [_ Hl] _ IH]; [reflexivity|].
    cbn [filter]. rewrite Hl. now rewrite IH.
  - apply Forall_forall. intros l Hl.
    rewrite Forall_forall in H. now destruct (H l Hl).
Qed.

(** *** Nothing but whitespace is lost *)

Lemma ink_app (a b : pystr) : ink (a ++ b) = ink a ++ ink b.
Proof. apply filter_app. Qed.

Lemma ink_join_space (parts : list pystr) :
  ink (join (str " ") parts) = flat_map ink parts.
Proof.
  induction parts as [|p ps IH]; [reflexivity|].
  destruct ps as [|q ps].
  - simpl. now rewrite app_nil_r.
  - change (join (str " ") (p :: q :: ps))
      with (p ++ str " " ++ join (str " ") (q :: ps)).
    rewrite !ink_app, IH. reflexivity.
Qed.

Lemma ink_blank (line : pystr) : nonempty (strip line) = false -> ink line = [].
Proof.
  intro H. unfold ink.
  destruct (filter (fun c => negb (isspace c)) line) as [|c r] eqn:Hf;
    [reflexivity|exfalso].
  assert (Hc : In c line /\ negb (isspace c) = true).
  { apply (proj1 (filter_In (fun c => negb (isspace c)) c line)).
    rewrite Hf. left; reflexivity. }
  destruct Hc as [Hin Hc]. apply negb_true_iff in Hc.
  pose proof (strip_keeps line c Hin Hc) as Hs.
  destruct (strip line); [contradiction|discriminate].
Qed.

Ltac flatten_ink :=
  repeat (first [ rewrite flat_map_app | rewrite ink_join_space
                | rewrite app_nil_r | rewrite <- app_assoc
                | progress cbn [flat_map app] ]).

Lemma keeps_ink_step (lines : list pystr) (st : state) (line : pystr) :
  keeps_ink lines st -> keeps_ink (lines ++ [line]) (step st line).
Proof.
  intros [Hempty Hink]. unfold keeps_ink, step.
  rewrite (flat_map_app ink lines [line]), <- Hink.
  destruct (in_multiline_field st) eqn:Hin; cbn [negb].
  - destruct (odd_quotes line);
      cbn [output_lines in_multiline_field multiline_content].
    + split; [reflexivity|]. flatten_ink. reflexivity.
    + split; [discriminate|]. flatten_ink. reflexivity.
  - rewrite (Hempty eq_refl).
    destruct (odd_quotes line);
      cbn [output_lines in_multiline_field multiline_content].
    + split; [discriminate|]. flatten_ink. reflexivity.
    + destruct (nonempty (strip line)) eqn:Hne;
        cbn [output_lines in_multiline_field multiline_content].
      * split; [reflexivity|]. flatten_ink. reflexivity.
      * split; [intros _; exact (Hempty eq_refl)|].
        cbn [flat_map]. rewrite ?(Hempty eq_refl), (ink_blank line Hne).
        flatten_ink. reflexivity.
Qed.

Lemma keeps_ink_run (rest : list pystr) :
  forall lines st, keeps_ink lines st -> keeps_ink (lines ++ rest) (run st rest).
Proof.
  induction rest as [|l rest IH]; intros lines st H.
  - now rewrite app_nil_r.
  - change (run st (l :: rest)) with (run (step st l) rest).
    replace (lines ++ l :: rest) with ((lines ++ [l]) ++ rest)
      by (now rewrite <- app_assoc).
    apply IH. now apply keeps_ink_step.
Qed.

(** X3: The characters that are not whitespace are kept, in order: those of
    the input are those of the logical lines followed by those of an
    unclosed record left in the accumulator; when the input ends outside
    a quoted field they are exactly those of the logical lines. *)
Theorem reassembler_keeps_ink :
  forall lines : list pystr,
    flat_map ink (reassemble lines)
    ++ flat_map ink (multiline_content (run init lines))
    = flat_map ink lines
    /\ (in_multiline_field (run init lines) = false ->
        flat_map ink (reassemble lines) = flat_map ink lines).
Proof.
  intro lines.
  assert (H0 : keeps_ink [] init) by (split; reflexivity).
  destruct (keeps_ink_run lines [] init H0) as [Hempty Hink].
  cbn [app] in Hink. split; [exact Hink|].
  intro Hout. rewrite (Hempty Hout) in Hink. cbn [flat_map] in Hink.
  now rewrite app_nil_r in Hink.
Qed.

(** *** The cleaned file *)

Lemma split_on_piece (c : ascii) (l : pystr) :
  ~ In c l ->
  forall cur rest,
    split_on c cur (l ++ c :: rest) = (cur ++ l) :: split_on c [] rest.
Proof.
  induction l as [|x l IH]; intros Hnot cur rest.
  - cbn [app split_on]. rewrite Ascii.eqb_refl. now rewrite app_nil_r.
  - cbn [app split_on].
    destruct (Ascii.eqb x c) eqn:Hx.
    + apply Ascii.eqb_eq in Hx. subst x. exfalso. apply Hnot. left; reflexivity.
    + rewrite IH by (intro H; apply Hnot; right; exact H).
      now rewrite <- app_assoc.
Qed.

Lemma split_write_lines (out : list pystr) :
  Forall one_line out -> split_char nl (write_lines out) = out ++ [[]].
Proof.
  unfold split_char, write_lines.
  induction 1 as [|l ls Hl _ IH]; [reflexivity|].
  cbn [map concat app]. rewrite <- app_assoc. cbn [app].
  rewrite (split_on_piece nl l Hl). cbn [app]. now rewrite IH.
Qed.

Lemma split_on_one_line (c : ascii) (s : pystr) :
  forall cur, ~ In c cur -> Forall (fun l => ~ In c l) (split_on c cur s).
Proof.
  induction s as [|x s IH]; intros cur Hcur; cbn [split_on].
  - constructor; [exact Hcur|constructor].
  - destruct (Ascii.eqb x c) eqn:Hx.
    + constructor; [exact Hcur|]. apply IH. intros [].
    + apply IH. intro H. apply in_app_or in H as [H|[H|[]]]; [auto|].
      subst x. now rewrite Ascii.eqb_refl in Hx.
Qed.

Lemma join_space_one_line (parts : list pystr) :
  Forall one_line parts -> one_line (join (str " ") parts).
Proof.
  induction 1 as [|p ps Hp Hps IH]; [intros []|].
  destruct ps as [|q ps]; [exact Hp|].
  change (join (str " ") (p :: q :: ps))
    with (p ++ str " " ++ join (str " ") (q :: ps)).
  intro H. apply in_app_or in H as [H|H]; [now apply Hp|].
  apply in_app_or in H as [H|H]; [|now apply IH].
  destruct H as [H|[]]. discriminate H.
Qed.

Lemma one_line_step (st : state) (line : pystr) :
  Forall one_line (output_lines st) ->
  Forall one_line (multiline_content st) ->
  one_line line ->
  Forall one_line (output_lines (step st line))
  /\ Forall one_line (multiline_content (step st line)).
Proof.
  intros Hout Hacc Hl. unfold step.
  destruct (in_multiline_field st); cbn [negb].
  - destruct (odd_quotes line);
      cbn [output_lines in_multiline_field multiline_content].
    + split; [|constructor]. apply Forall_app. split; [exact Hout|].
      constructor; [|constructor]. apply join_space_one_line.
      apply Forall_app. split; [exact Hacc|]. now constructor.
    + split; [exact Hout|]. apply Forall_app. split; [exact Hacc|].
      now constructor.
  - destruct (odd_quotes line);
      cbn [output_lines in_multiline_field multiline_content].
    + split; [exact Hout|]. now constructor.
    + destruct (nonempty (strip line));
        cbn [output_lines in_multiline_field multiline_content].
      * split; [|exact Hacc]. apply Forall_app. split; [exact Hout|].
        now constructor.
      * now split.
Qed.

Lemma one_line_run (lines : list pystr) :
  Forall one_line lines ->
  forall st,
    Forall one_line (output_lines st) ->
    Forall one_line (multiline_content st) ->
    Forall one_line (output_lines (run st lines)).
Proof.
  induction 1 as [|l ls Hl _ IH]; intros st Hout Hacc; [exact Hout|].
  change (run st (l :: ls)) with (run (step st l) ls).
  destruct (one_line_step st l Hout Hacc Hl) as [H1 H2]. now apply IH.
Qed.

(** X4: Reading the cleaned file back line by line gives the logical lines,
    followed by the empty piece after the last newline. *)
Theorem cleaned_file_lines :
  forall content : pystr,
    split_char nl (clean_multiline_csv content)
    = reassemble (split_char nl content) ++ [[]].
Proof.
  intro content. unfold clean_multiline_csv.
  apply split_write_lines. unfold reassemble.
  apply one_line_run; try constructor.
  apply (split_on_one_line nl content []). intros [].
Qed.

(** X5: Cleaning a cleaned file gives the same file. *)
Theorem clean_multiline_csv_idempotent :
  forall content : pystr,
    clean_multiline_csv (clean_multiline_csv content)
    = clean_multiline_csv content.
Proof.
  intro content.
  unfold clean_multiline_csv at 1. rewrite cleaned_file_lines.
  unfold clean_multiline_csv. f_equal.
  set (out := reassemble (split_char nl content)).
  pose proof (output_lines_balanced_nonblank (split_char nl content)) as H.
  fold out in H.
  rewrite balanced_lines_pass_through.
  - rewrite filter_app. cbn [filter]. unfold nonblank at 2.
    change (nonempty (strip [])) with false. cbn iota. rewrite app_nil_r.
    induction H as [|l ls [_ Hl] _ IH]; [reflexivity|].
    cbn [filter]. rewrite Hl. now rewrite IH.
  - apply Forall_app. split; [|repeat constructor].
    apply Forall_forall. intros l Hl.
    rewrite Forall_forall in H. now destruct (H l Hl).
Qed.

End ReassemblerMore.

(* ================================================================= *)
(** ** The matcher: the loops of [re.sub] and [re.split] *)

Module LoopFacts.

Lemma in_firstn {A} (n : nat) (l : list A) (x : A) :
  In x (firstn n l) -> In x l.
Proof.
  intro H. rewrite <- (firstn_skipn n l). apply in_or_app. now left.
Qed.

Lemma in_skipn {A} (n : nat) (l : list A) (x : A) :
  In x (skipn n l) -> In x l.
Proof.
  intro H. rewrite <- (firstn_skipn n l). apply in_or_app. now right.
Qed.

Section Loops.

Variable fl : flags.
Variable t : pystr.

Local Abbreviation m := (Re.m fl t).

Lemma first_attempt_before (r : regex) (ps : list nat) (mt : rmatch) :
  first_attempt fl t r ps = Some mt ->
  exists ps1 ps2,
    ps = ps1 ++ m_start mt :: ps2
    /\ (forall q, In q ps1 -> m r q None = []).
Proof.
  induction ps as [|p ps IH]; simpl; [discriminate|].
  destruct (attempt fl t r false p) as [x|] eqn:Ha.
  - intro H. injection H as ->.
    destruct (ReFacts.attempt_some _ _ _ _ _ Ha) as [Hs _].
    exists [], ps. rewrite Hs. split; [reflexivity|intros q []].
  - intro H. destruct (IH H) as (ps1 & ps2 & -> & Hnil).
    exists (p :: ps1), ps2. split; [reflexivity|].
    intros q [<-|Hq]; [now apply ReFacts.attempt_none|now apply Hnil].
Qed.

(** The match found from [i] on is the leftmost: no position before its
    start has a match. *)
Lemma search_at_leftmost (r : regex) (i : nat) (mt : rmatch) :
  i <= length t ->
  search_at fl t r i false = Some mt ->
  i <= m_start mt /\ m_start mt <= length t
  /\ (forall q, i <= q -> q < m_start mt -> m r q None = [])
  /\ exists rest, m r (m_start mt) None = (m_end mt, m_group mt) :: rest.
Proof.
  intros Hi. unfold search_at.
  destruct (attempt fl t r false i) as [x|] eqn:Ha.
  - intro H. injection H as ->.
    destruct (ReFacts.attempt_some _ _ _ _ _ Ha) as [Hs Hm].
    rewrite Hs. repeat split; try lia. exact Hm.
  - intro H.
    destruct (ReFacts.first_attempt_some _ _ _ _ _ H) as [Hin Hm].
    destruct (first_attempt_before _ _ _ H) as (ps1 & ps2 & Hps & Hnil).
    apply in_seq in Hin.
    apply ReFacts.seq_split in Hps as (Hps1 & _ & _).
    repeat split; try lia; [|exact Hm].
    intros q Hq1 Hq2.
    destruct (Nat.eq_dec q i) as [->|Hne];
      [now apply ReFacts.attempt_none|].
    apply Hnil. rewrite Hps1. apply in_seq. lia.
Qed.

Lemma search_at_none (r : regex) (i : nat) :
  search_at fl t r i false = None ->
  forall q, i <= q -> q <= length t -> m r q None = [].
Proof.
  unfold search_at.
  destruct (attempt fl t r false i) eqn:Ha; [discriminate|].
  intros H q Hq1 Hq2.
  destruct (Nat.eq_dec q i) as [->|Hne];
    [now apply ReFacts.attempt_none|].
  apply (ReFacts.first_attempt_none _ _ _ _ H). apply in_seq. lia.
Qed.

(** *** Where the characters of the results come from *)

Lemma slice_incl (i j : nat) (c : ascii) : In c (slice i j t) -> In c t.
Proof.
  unfold slice. intro H. apply in_firstn in H. now apply in_skipn in H.
Qed.

Lemma sub_loop_chars (r : regex) (repl : pystr) (fuel : nat) :
  forall i adv c,
    In c (sub_loop fl t r repl fuel i adv) -> In c t \/ In c repl.
Proof.
  induction fuel as [|fuel IH]; intros i adv c; simpl.
  - intro H. left. now apply in_skipn in H.
  - destruct (search_at fl t r i adv) as [mt|].
    + intro H. apply in_app_or in H as [H|H];
        [left; now apply slice_incl in H|].
      apply in_app_or in H as [H|H]; [now right|].
      now apply IH in H.
    + intro H. left. now apply in_skipn in H.
Qed.

Lemma split_loop_chars (r : regex) (fuel : nat) :
  forall i adv piece c,
    In piece (split_loop fl t r fuel i adv) -> In c piece -> In c t.
Proof.
  induction fuel as [|fuel IH]; intros i adv piece c; simpl.
  - intros [<-|[]] H. now apply in_skipn in H.
  - destruct (search_at fl t r i adv) as [mt|].
    + intros [<-|H] Hc; [now apply slice_incl in Hc|].
      now apply (IH _ _ _ _ H).
    + intros [<-|[]] H. now apply in_skipn in H.
Qed.

(** *** Patterns that take a run of one class of characters *)

Section Runs.

Variable a : atom.
Variable width : pystr -> nat.
Variable r : regex.
Variable repl : pystr.

Hypothesis miss :
  forall p c, nth_error t p = Some c -> atom_match fl a c = false ->
              m r p None = [].
Hypothesis miss_end : m r (length t) None = [].
Hypothesis hit :
  forall p c, nth_error t p = Some c -> atom_match fl a c = true ->
              1 <= width (skipn p t)
              /\ exists rest,
                   m r p None = (p + width (skipn p t), None) :: rest.

Local Abbreviation spec := (replace_runs fl a width repl).

Lemma replace_runs_skip (s : pystr) :
  forall k, spec k s = spec 0 (skipn k s).
Proof.
  induction s as [|c s IH]; intros [|k]; try reflexivity.
  cbn [replace_runs skipn]. apply IH.
Qed.

Lemma replace_runs_clean (s : pystr) :
  Forall (fun c => atom_match fl a c = false) s -> spec 0 s = s.
Proof.
  induction 1 as [|c s Hc _ IH]; [reflexivity|].
  cbn [replace_runs]. now rewrite Hc, IH.
Qed.

Lemma replace_runs_prefix (w s : pystr) :
  Forall (fun c => atom_match fl a c = false) w ->
  spec 0 (w ++ s) = w ++ spec 0 s.
Proof.
  induction 1 as [|c w Hc _ IH]; [reflexivity|].
  cbn [app replace_runs]. now rewrite Hc, IH.
Qed.

Lemma no_match_chars (i j : nat) :
  j <= length t ->
  (forall q, i <= q -> q < j -> m r q None = []) ->
  Forall (fun c => atom_match fl a c = false) (slice i j t).
Proof.
  intros Hj Hnil. apply Forall_forall. intros c Hc.
  unfold slice in Hc. apply In_nth_error in Hc as [n Hn].
  assert (Hlt : n < j - i).
  { assert (n < length (firstn (j - i) (skipn i t)))
      by (apply nth_error_Some; congruence).
    rewrite length_firstn in H. lia. }
  rewrite nth_error_firstn in Hn.
  destruct (n <? j - i) eqn:Hb; [|apply Nat.ltb_ge in Hb; lia].
  rewrite nth_error_skipn in Hn.
  destruct (atom_match fl a c) eqn:Ha; [|reflexivity].
  destruct (hit _ _ Hn Ha) as [_ [rest Hm]].
  rewrite (Hnil (i + n)) in Hm by lia. discriminate.
Qed.

Lemma skipn_slice (i j : nat) :
  i <= j -> skipn i t = slice i j t ++ skipn j t.
Proof.
  intro Hij. unfold slice.
  rewrite <- (firstn_skipn (j - i) (skipn i t)) at 1.
  rewrite skipn_skipn. now replace (j - i + i) with j by lia.
Qed.

Lemma sub_loop_runs (fuel : nat) :
  forall i,
    i <= length t ->
    fuel_needed t i false <= fuel ->
    sub_loop fl t r repl fuel i false = spec 0 (skipn i t).
Proof.
  induction fuel as [|fuel IH]; intros i Hi Hfuel.
  - unfold fuel_needed in Hfuel. lia.
  - cbn [sub_loop].
    destruct (search_at fl t r i false) as [mt|] eqn:Hs.
    + destruct (search_at_leftmost _ _ _ Hi Hs)
        as (Hlo & Hhi & Hnil & rest & Hm).
      destruct (ReFacts.fuel_needed_next _ _ _ _ _ _ Hi Hs) as [He Hn].
      destruct (nth_error t (m_start mt)) as [c|] eqn:Hc.
      * destruct (atom_match fl a c) eqn:Ha;
          [|rewrite (miss _ _ Hc Ha) in Hm; discriminate].
        destruct (hit _ _ Hc Ha) as [Hw [rest' Hm']].
        rewrite Hm' in Hm. injection Hm as Hend _ _.
        assert (Hadv : (m_end mt =? m_start mt) = false)
          by (apply Nat.eqb_neq; lia).
        rewrite Hadv, IH by (rewrite ?Hadv in Hn; lia).
        rewrite (skipn_slice i (m_start mt) Hlo).
        rewrite replace_runs_prefix by (apply no_match_chars; assumption).
        f_equal. rewrite (ReFacts.skipn_cons t (m_start mt)), Hc.
        cbn [replace_runs]. rewrite Ha. f_equal.
        assert (Hsk : c :: skipn (S (m_start mt)) t = skipn (m_start mt) t)
          by (rewrite (ReFacts.skipn_cons t (m_start mt)), Hc; reflexivity).
        rewrite Hsk.
        rewrite (replace_runs_skip (skipn (S (m_start mt)) t)), skipn_skipn.
        replace (width (skipn (m_start mt) t) - 1 + S (m_start mt))
          with (m_end mt) by lia.
        reflexivity.
      * assert (m_start mt = length t).
        { apply nth_error_None in Hc. lia. }
        rewrite H, miss_end in Hm. discriminate.
    + symmetry. apply replace_runs_clean.
      rewrite <- (firstn_all (skipn i t)), length_skipn.
      change (firstn (length t - i) (skipn i t)) with (slice i (length t) t).
      apply no_match_chars; [lia|].
      intros q Hq1 Hq2. apply (search_at_none _ _ Hs); lia.
Qed.

End Runs.

End Loops.

(** [\s+] takes the whole run of whitespace that begins at a position. *)
Lemma ws_plus_hit (fl : flags) (t : pystr) (p : nat) (c : ascii) :
  nth_error t p = Some c -> atom_match fl ASpace c = true ->
  1 <= run_len fl ASpace (skipn p t)
  /\ exists rest,
       Re.m fl t ws_plus p None
       = (p + run_len fl ASpace (skipn p t), None) :: rest.
Proof.
  intros Hc Ha.
  assert (Hn : run_len fl ASpace (skipn p t)
               = S (run_len fl ASpace (skipn (S p) t))).
  { rewrite (ReFacts.skipn_cons t p), Hc. cbn [run_len]. now rewrite Ha. }
  unfold ws_plus. cbn [Re.m]. rewrite Hn. split; [lia|].
  set (k := run_len fl ASpace (skipn (S p) t)).
  replace (S k <? 1) with false by (symmetry; apply Nat.ltb_ge; lia).
  replace (S k - 1 + 1) with (k + 1) by lia.
  rewrite ReFacts.rev_seq_succ. cbn [map].
  replace (p + 1 + k) with (p + S k) by lia.
  eauto.
Qed.

Lemma ws_plus_miss (fl : flags) (t : pystr) (p : nat) (c : ascii) :
  nth_error t p = Some c -> atom_match fl ASpace c = false ->
  Re.m fl t ws_plus p None = [].
Proof.
  intros Hc Ha. unfold ws_plus. cbn [Re.m].
  rewrite (ReFacts.skipn_cons t p), Hc. cbn [run_len]. now rewrite Ha.
Qed.

Lemma ws_plus_end (fl : flags) (t : pystr) :
  Re.m fl t ws_plus (length t) None = [].
Proof.
  unfold ws_plus. cbn [Re.m]. now rewrite skipn_all.
Qed.

Lemma replace_runs_squeeze (s : pystr) :
  replace_runs no_flags ASpace (run_len no_flags ASpace) (str " ") 0 s
  = squeeze false s
  /\ replace_runs no_flags ASpace (run_len no_flags ASpace) (str " ")
       (run_len no_flags ASpace s) s
     = squeeze true s.
Proof.
  change (str " ") with [" "%char].
  induction s as [|c s [IH0 IH1]]; [split; reflexivity|].
  cbn [squeeze run_len atom_match].
  destruct (isspace c) eqn:Hc.
  - cbn [replace_runs atom_match]. rewrite Hc.
    cbn [run_len atom_match]. rewrite Hc.
    rewrite Nat.sub_1_r. cbn [Nat.pred app].
    rewrite IH1. split; reflexivity.
  - cbn [replace_runs atom_match]. rewrite Hc, IH0. split; reflexivity.
Qed.

(** [re.sub(r'\s+', ' ', s)] replaces every run of whitespace by one
    space. *)
Lemma sub_spaces_squeeze (s : pystr) :
  Re.sub no_flags ws_plus (str " ") s = squeeze false s.
Proof.
  unfold Re.sub.
  rewrite (sub_loop_runs no_flags s ASpace (run_len no_flags ASpace) ws_plus
             (str " ")).
  - apply replace_runs_squeeze.
  - apply ws_plus_miss.
  - apply ws_plus_end.
  - apply ws_plus_hit.
  - lia.
  - unfold fuel_needed, loop_fuel. lia.
Qed.

End LoopFacts.

(* ================================================================= *)
(** ** The extractor: shape of names and remarks *)

Module ExtractorMore.

Import NameFacts ExtractorFacts LoopFacts.

(** *** Stripped strings *)

Lemma lstrip_fixed (s : pystr) :
  (forall a r, s = a :: r -> isspace a = false) -> lstrip s = s.
Proof.
  destruct s as [|a r]; [reflexivity|]. intro H. simpl.
  now rewrite (H a r eq_refl).
Qed.

Lemma ends_clean_strip_fixed (s : pystr) : ends_clean s -> strip s = s.
Proof.
  intros [Hhead Hlast]. unfold strip, rstrip.
  rewrite (lstrip_fixed s Hhead).
  rewrite lstrip_fixed; [apply rev_involutive|].
  intros a r Hr. apply (Hlast (rev r) a).
  rewrite <- (rev_involutive s), Hr. reflexivity.
Qed.

Lemma strip_ends_clean (s : pystr) : ends_clean (strip s).
Proof.
  split.
  - intros a r. apply strip_head.
  - intros l z Hz. unfold strip, rstrip in Hz.
    apply (f_equal (@rev ascii)) in Hz.
    rewrite rev_involutive, rev_app_distr in Hz. simpl in Hz.
    exact (lstrip_head _ _ _ Hz).
Qed.

Lemma strip_strip (s : pystr) : strip (strip s) = strip s.
Proof. apply ends_clean_strip_fixed, strip_ends_clean. Qed.

Lemma lstrip_suffix (s : pystr) : exists w, s = w ++ lstrip s.
Proof.
  induction s as [|c s [w IH]]; [now exists []|]. simpl.
  destruct (isspace c); [|now exists []].
  exists (c :: w). simpl. now rewrite <- IH.
Qed.

Lemma rstrip_prefix (s : pystr) : exists w, s = rstrip s ++ w.
Proof.
  unfold rstrip. destruct (lstrip_suffix (rev s)) as [w Hw].
  exists (rev w). rewrite <- rev_app_distr, <- Hw. now rewrite rev_involutive.
Qed.

Lemma strip_incl (s : pystr) (c : ascii) : In c (strip s) -> In c s.
Proof.
  unfold strip. intro H.
  destruct (rstrip_prefix (lstrip s)) as [w Hw].
  destruct (lstrip_suffix s) as [w' Hw'].
  rewrite Hw', Hw. apply in_or_app. right. apply in_or_app. now left.
Qed.

(** *** Single spaces *)

Lemma spaced_squeeze (s : pystr) : forall b, spaced b (squeeze b s) = true.
Proof.
  induction s as [|c s IH]; intro b; [reflexivity|].
  cbn [squeeze]. destruct (isspace c) eqn:Hc.
  - destruct b; [apply IH|].
    cbn [spaced]. change (isspace " ") with true. cbn. apply IH.
  - cbn [spaced]. rewrite Hc. apply IH.
Qed.

Lemma spaced_weaken (s : pystr) : spaced true s = true -> spaced false s = true.
Proof.
  destruct s as [|c s]; [reflexivity|]. cbn [spaced].
  destruct (isspace c); [|auto].
  rewrite andb_false_r. discriminate.
Qed.

Lemma spaced_lstrip (s : pystr) :
  forall b, spaced b s = true -> spaced false (lstrip s) = true.
Proof.
  induction s as [|c s IH]; intros b H; [reflexivity|].
  cbn [spaced lstrip] in *. destruct (isspace c) eqn:Hc.
  - apply andb_true_iff in H as [_ H]. now apply (IH true).
  - cbn [spaced]. now rewrite Hc.
Qed.

Lemma spaced_prefix (p w : pystr) :
  forall b, spaced b (p ++ w) = true -> spaced b p = true.
Proof.
  induction p as [|c p IH]; intros b H; [reflexivity|].
  cbn [app spaced] in *. destruct (isspace c).
  - apply andb_true_iff in H as [H1 H2]. rewrite H1. now apply IH.
  - now apply IH.
Qed.

Lemma spaced_strip (s : pystr) :
  spaced false s = true -> spaced false (strip s) = true.
Proof.
  intro H. unfold strip.
  destruct (rstrip_prefix (lstrip s)) as [w Hw].
  apply (spaced_prefix _ w). rewrite <- Hw. now apply (spaced_lstrip s false).
Qed.

Lemma squeeze_snoc (s : pystr) (z : ascii) :
  isspace z = false -> forall b, squeeze b (s ++ [z]) = squeeze b s ++ [z].
Proof.
  intro Hz. induction s as [|c s IH]; intro b.
  - cbn [app squeeze]. now rewrite Hz.
  - cbn [app squeeze]. destruct (isspace c); [destruct b|];
      now rewrite IH.
Qed.

Lemma squeeze_ends_clean (s : pystr) :
  ends_clean s -> ends_clean (squeeze false s).
Proof.
  intros [Hhead Hlast]. split.
  - intros a' r' H. destruct s as [|a r]; [discriminate H|].
    pose proof (Hhead a r eq_refl) as Ha.
    cbn [squeeze] in H. rewrite Ha in H. injection H as <- _. exact Ha.
  - intros l' z' H. destruct s as [|a r]; [destruct l'; discriminate H|].
    assert (Hne : a :: r <> []) by discriminate.
    destruct (exists_last Hne) as (l & z & Hlz).
    rewrite Hlz in H, Hlast.
    pose proof (Hlast l z eq_refl) as Hz.
    rewrite (squeeze_snoc l z Hz) in H.
    apply app_inj_tail in H as [_ <-]. exact Hz.
Qed.

Lemma tidy_squeeze_stripped (s : pystr) : tidy (squeeze false (strip s)).
Proof.
  split.
  - apply ends_clean_strip_fixed, squeeze_ends_clean, strip_ends_clean.
  - apply spaced_squeeze.
Qed.

Lemma clean_name_tidy (part : pystr) : tidy (clean_name part).
Proof.
  unfold clean_name. rewrite sub_spaces_squeeze. apply tidy_squeeze_stripped.
Qed.

Lemma collect_names_tidy (parts : list pystr) :
  Forall tidy (collect_names parts).
Proof.
  apply Forall_forall. intros n Hn.
  rewrite collect_names_keep_first in Hn. apply keep_first_incl in Hn.
  unfold candidates in Hn. apply filter_In in Hn as [Hn _].
  apply in_map_iff in Hn as (part & <- & _). apply clean_name_tidy.
Qed.

Lemma extract_remarks_tidy (text : pystr) : tidy (extract_remarks text).
Proof.
  unfold extract_remarks. rewrite sub_spaces_squeeze. split.
  - apply strip_strip.
  - apply spaced_strip, spaced_squeeze.
Qed.

(** X6: Every returned name and the remarks are tidy: no whitespace at either
    end, and inside no whitespace but single spaces (no newline, no tab,
    no two spaces in a row). *)
Theorem names_and_remarks_are_tidy :
  forall v : pyval,
    exists r,
      parse_owners_raw_field v = Ok r
      /\ Forall tidy (occupant_names r)
      /\ Forall tidy (tenant_names r)
      /\ tidy (remarks r).
Proof.
  intro v. eexists. split; [apply parse_ok|]. cbn [occupant_names tenant_names remarks].
  repeat split; try apply collect_names_tidy.
  - destruct v; try reflexivity. apply extract_remarks_tidy.
  - destruct v; try reflexivity. apply extract_remarks_tidy.
Qed.

(** X7: The remark count of [main] is the number of characters of the
    remarks. *)
Theorem remark_count_is_length :
  forall v : pyval,
    exists r,
      parse_owners_raw_field v = Ok r
      /\ remark_count (PyStr (remarks r)) = length (remarks r).
Proof.
  intro v.
  destruct (names_and_remarks_are_tidy v) as (r & Hr & _ & _ & Hs & _).
  exists r. split; [exact Hr|]. unfold remark_count. rewrite Hs.
  destruct (remarks r); reflexivity.
Qed.

(** X8: A record is tenanted exactly when the extractor returned a tenant
    name. *)
Theorem tenanted_iff_tenant_names :
  forall v : pyval,
    exists r,
      parse_owners_raw_field v = Ok r
      /\ (is_tenanted r = true <-> tenant_names r <> []).
Proof.
  intro v. eexists. split; [apply parse_ok|].
  unfold is_tenanted. cbn [tenant_count tenant_names].
  destruct (collect_names (fragments_of tenant_fragments v)); cbn.
  - split; [discriminate|congruence].
  - split; [discriminate|reflexivity].
Qed.

End ExtractorMore.

(* ================================================================= *)
(** ** The extractor: labels and characters *)

Module ExtractorLabels.

Import NameFacts ExtractorFacts LoopFacts ExtractorMore.

Lemma occurs_at (fl : flags) (kw s : pystr) (p : nat) :
  p <= length s -> starts_with fl kw (skipn p s) = true ->
  occurs fl kw s = true.
Proof.
  intros Hp H. unfold occurs. apply existsb_exists.
  exists p. split; [apply in_seq; lia|exact H].
Qed.

(** A section pattern is found only where its label stands. *)
Lemma section_needs_label (kw : string) (rest bound : regex) (text : pystr)
    (mt : rmatch) :
  Re.search f_IS (section_pat (Seq (lit kw) rest) bound) text = Some mt ->
  occurs f_IS (str kw) text = true.
Proof.
  intro Hs. destruct (ReFacts.search_some _ _ _ _ Hs) as [Hi [more Hm]].
  apply (occurs_at _ _ _ (m_start mt) Hi).
  unfold section_pat in Hm. cbn [Re.m] in Hm. unfold lit in Hm.
  rewrite ReFacts.m_lit in Hm.
  destruct (starts_with f_IS (str kw) (skipn (m_start mt) text));
    [reflexivity|discriminate Hm].
Qed.

(** X9: Without the label Occupants Names anywhere in the stripped text (in
    any case) no occupant is returned, and without the word Tenants no
    tenant. *)
Theorem missing_label_gives_empty_list :
  forall raw : pystr,
    exists r,
      parse_owners_raw_field (PyStr raw) = Ok r
      /\ (occurs f_IS (str "Occupants Names") (strip raw) = false ->
          occupant_names r = [] /\ occupant_count r = 0)
      /\ (occurs f_IS (str "Tenants") (strip raw) = false ->
          tenant_names r = [] /\ tenant_count r = 0).
Proof.
  intro raw. eexists. split; [apply parse_ok|].
  cbn [occupant_names occupant_count tenant_names tenant_count fragments_of].
  split; intro Hno.
  - assert (Hf : occupant_fragments (strip raw) = []).
    { unfold occupant_fragments, section_text.
      destruct (Re.search f_IS pat_occupants (strip raw)) as [mt|] eqn:Hs;
        [|reflexivity].
      apply (section_needs_label "Occupants Names") in Hs. congruence. }
    rewrite Hf. split; reflexivity.
  - assert (Hf : tenant_fragments (strip raw) = []).
    { unfold tenant_fragments, section_text.
      destruct (Re.search f_IS pat_tenants (strip raw)) as [mt|] eqn:Hs;
        [|reflexivity].
      apply (section_needs_label "Tenants") in Hs. congruence. }
    rewrite Hf. split; reflexivity.
Qed.

Lemma missing_label_gives_empty_list_witness :
  exists r,
    parse_owners_raw_field (PyStr (str "Tenants names: Ravi Nair")) = Ok r
    /\ occupant_names r = [] /\ occupant_count r = 0.
Proof.
  destruct (missing_label_gives_empty_list (str "Tenants names: Ravi Nair"))
    as (r & Hr & Hocc & _).
  exists r. split; [exact Hr|]. apply Hocc. vm_compute. reflexivity.
Defined.

(** *** Names and remarks are made of the characters of the input *)

Lemma sub_incl (fl : flags) (r : regex) (repl t : pystr) (c : ascii) :
  In c (Re.sub fl r repl t) -> In c t \/ In c repl.
Proof. apply sub_loop_chars. Qed.

Lemma sub_delete_incl (fl : flags) (r : regex) (t : pystr) (c : ascii) :
  In c (Re.sub fl r [] t) -> In c t.
Proof. intro H. destruct (sub_incl _ _ _ _ _ H) as [H'|[]]. exact H'. Qed.

Lemma sub_space_incl (fl : flags) (r : regex) (t : pystr) (c : ascii) :
  In c (Re.sub fl r (str " ") t) -> from_text t c.
Proof.
  intro H. destruct (sub_incl _ _ _ _ _ H) as [H'|[H'|[]]];
    [now left|now right].
Qed.

Lemma split_incl (fl : flags) (r : regex) (t piece : pystr) (c : ascii) :
  In piece (Re.split fl r t) -> In c piece -> In c t.
Proof. apply split_loop_chars. Qed.

Lemma clean_name_incl (part : pystr) (c : ascii) :
  In c (clean_name part) -> from_text part c.
Proof.
  unfold clean_name. intro H.
  apply sub_space_incl in H as [H|H]; [left|now right].
  apply strip_incl, sub_delete_incl, strip_incl, sub_delete_incl in H.
  exact H.
Qed.

Lemma collect_names_incl (parts : list pystr) (n : pystr) :
  In n (collect_names parts) ->
  exists part, In part parts /\ n = clean_name (strip part).
Proof.
  intro Hn. rewrite collect_names_keep_first in Hn.
  apply keep_first_incl in Hn.
  unfold candidates in Hn. apply filter_In in Hn as [Hn _].
  apply in_map_iff in Hn as (p & <- & Hp).
  apply filter_In in Hp as [Hp _].
  apply in_map_iff in Hp as (part & <- & Hpart). eauto.
Qed.

Lemma section_text_incl (pat : regex) (text st : pystr) (c : ascii) :
  section_text pat text = Some st -> In c st -> In c text.
Proof.
  unfold section_text, group1.
  destruct (Re.search f_IS pat text) as [mt|]; [|discriminate].
  destruct (m_group mt) as [[s e]|]; [|discriminate].
  cbn. intro H. injection H as <-. intro Hc.
  apply strip_incl in Hc. now apply slice_incl in Hc.
Qed.

Lemma occupant_fragments_incl (text part : pystr) (c : ascii) :
  In part (occupant_fragments text) -> In c part -> In c text.
Proof.
  unfold occupant_fragments.
  destruct (section_text pat_occupants text) as [st|] eqn:Hst; [|intros []].
  unfold occupant_parts. intros Hp Hc.
  apply (section_text_incl _ _ _ c Hst).
  destruct (has_numbered st).
  - exact (split_incl _ _ _ _ _ Hp Hc).
  - destruct Hp as [<-|[]]. exact Hc.
Qed.

Lemma tenant_fragments_incl (text part : pystr) (c : ascii) :
  In part (tenant_fragments text) -> In c part -> In c text.
Proof.
  unfold tenant_fragments.
  destruct (section_text pat_tenants text) as [st|] eqn:Hst; [|intros []].
  unfold tenant_parts. intros Hp Hc.
  apply (section_text_incl _ _ _ c Hst).
  destruct (has_numbered st); exact (split_incl _ _ _ _ _ Hp Hc).
Qed.

Lemma names_from_text (frags : pystr -> list pystr) (raw : pystr) :
  (forall part c, In part (frags (strip raw)) -> In c part ->
                  In c (strip raw)) ->
  Forall (Forall (from_text raw)) (collect_names (frags (strip raw))).
Proof.
  intro Hfrag. apply Forall_forall. intros n Hn.
  apply collect_names_incl in Hn as (part & Hpart & ->).
  apply Forall_forall. intros c Hc.
  apply clean_name_incl in Hc as [Hc|Hc]; [left|now right].
  apply strip_incl in Hc. apply strip_incl. exact (Hfrag part c Hpart Hc).
Qed.

Lemma fold_sub_delete_incl (fl : flags) (pats : list regex) (c : ascii) :
  forall t, In c (fold_left (fun acc p => Re.sub fl p [] acc) pats t) -> In c t.
Proof.
  induction pats as [|p pats IH]; intros t H; [exact H|].
  cbn [fold_left] in H. apply IH in H. now apply sub_delete_incl in H.
Qed.

Lemma extract_remarks_incl (text : pystr) (c : ascii) :
  In c (extract_remarks text) -> from_text text c.
Proof.
  unfold extract_remarks. intro H. apply strip_incl in H.
  apply sub_space_incl in H as [H|H]; [|now right].
  apply sub_space_incl in H as [H|H]; [|now right].
  left. exact (fold_sub_delete_incl _ _ _ _ H).
Qed.

(** X10: The extractor invents no character: every character of a returned
    name and of the remarks is a character of the raw text, or the space
    that stands for a run of whitespace. *)
Theorem output_made_of_input :
  forall raw : pystr,
    exists r,
      parse_owners_raw_field (PyStr raw) = Ok r
      /\ Forall (Forall (from_text raw)) (occupant_names r)
      /\ Forall (Forall (from_text raw)) (tenant_names r)
      /\ Forall (from_text raw) (remarks r).
Proof.
  intro raw. eexists. split; [apply parse_ok|].
  cbn [occupant_names tenant_names remarks fragments_of remarks_of].
  split; [|split].
  - apply (names_from_text occupant_fragments).
    intros part c. apply occupant_fragments_incl.
  - apply (names_from_text tenant_fragments).
    intros part c. apply tenant_fragments_incl.
  - apply Forall_forall. intros c Hc.
    apply extract_remarks_incl in Hc as [Hc|Hc]; [left|now right].
    now apply strip_incl.
Qed.

End ExtractorLabels.

(* ================================================================= *)
(** ** Classification and area text *)

Module ClassifyMore.

Import ClassifyFacts LoopFacts.

(** The search succeeds exactly when the pattern matches at a position
    of the text. *)
Lemma search_existsb (fl : flags) (r : regex) (t : pystr) :
  (match Re.search fl r t with Some _ => true | None => false end)
  = existsb (fun p => hits fl t r p None) (seq 0 (length t + 1)).
Proof.
  destruct (Re.search fl r t) as [mt|] eqn:Hs.
  - symmetry. apply existsb_exists.
    destruct (ReFacts.search_some _ _ _ _ Hs) as [Hi [rest Hm]].
    exists (m_start mt). split; [apply in_seq; lia|].
    unfold hits. now rewrite Hm.
  - symmetry. apply not_true_is_false. intro H.
    apply existsb_exists in H as (p & Hp & Hh). apply in_seq in Hp.
    revert Hs. apply (ReFacts.search_complete fl t r p); [lia|].
    unfold hits in Hh. destruct (Re.m fl t r p None); [discriminate|].
    discriminate.
Qed.

Lemma hits_alt_of (fl : flags) (t : pystr) (rs : list regex) :
  forall r p g,
    hits fl t (alt_of r rs) p g = existsb (fun r' => hits fl t r' p g) (r :: rs).
Proof.
  induction rs as [|r1 rs IH]; intros r p g.
  - cbn [alt_of existsb]. now rewrite orb_false_r.
  - cbn [alt_of]. rewrite ReFacts.hits_alt, IH. reflexivity.
Qed.

Lemma existsb_map_comp {A B} (h : A -> B) (f : B -> bool) (l : list A) :
  existsb f (map h l) = existsb (fun a => f (h a)) l.
Proof.
  induction l as [|a l IH]; [reflexivity|]. cbn. now rewrite IH.
Qed.

Lemma existsb_ext_eq {A} (f g : A -> bool) (l : list A) :
  (forall a, f a = g a) -> existsb f l = existsb g l.
Proof.
  intro H. induction l as [|a l IH]; [reflexivity|]. cbn. now rewrite H, IH.
Qed.

Lemma hits_any_of (fl : flags) (t : pystr) (words : list string) (p : nat)
    (g : caps) :
  words <> [] ->
  hits fl t (any_of words) p g
  = existsb (fun kw => starts_with fl (str kw) (skipn p t)) words.
Proof.
  intro Hne. unfold any_of.
  destruct words as [|w ws]; [contradiction|]. cbn [map].
  rewrite hits_alt_of. change (lit w :: map lit ws) with (map lit (w :: ws)).
  rewrite existsb_map_comp. apply existsb_ext_eq. intro kw.
  unfold lit. apply ReFacts.hits_lit.
Qed.

Lemma existsb_swap {A B} (f : A -> B -> bool) (xs : list A) (ys : list B) :
  existsb (fun x => existsb (fun y => f x y) ys) xs
  = existsb (fun y => existsb (fun x => f x y) xs) ys.
Proof.
  apply eq_true_iff_eq. rewrite !existsb_exists. split.
  - intros (x & Hx & H). apply existsb_exists in H as (y & Hy & H).
    exists y. split; [exact Hy|]. apply existsb_exists. eauto.
  - intros (y & Hy & H). apply existsb_exists in H as (x & Hx & H).
    exists x. split; [exact Hx|]. apply existsb_exists. eauto.
Qed.

(** A text is matched by the alternation of the words exactly when one
    of the words occurs in it, in any case. *)
Lemma str_contains_occurs (words : list string) (s : pystr) :
  words <> [] ->
  str_contains (any_of words) s
  = existsb (fun kw => occurs f_I (str kw) s) words.
Proof.
  intro Hne. unfold str_contains. rewrite search_existsb.
  rewrite (existsb_ext_eq _ (fun p => existsb
             (fun kw => starts_with f_I (str kw) (skipn p s)) words))
    by (intro p; now apply hits_any_of).
  rewrite existsb_swap. reflexivity.
Qed.

(** X11: A record with a raw owners text is classified as government exactly
    when one of the government keywords occurs in the text, in any case,
    and as comunidade exactly when one of the comunidade spellings
    does. *)
Theorem classification_is_keyword_occurrence :
  forall (raw : pystr) (c : option pystr),
    is_government {| owners_raw := Some raw; communidade := c |}
    = existsb (fun kw => occurs f_I (str kw) raw) government_keywords
    /\ is_comunidade {| owners_raw := Some raw; communidade := c |}
       = existsb (fun kw => occurs f_I (str kw) raw) comunidade_variations.
Proof.
  intros raw c. unfold is_government, is_comunidade. cbn [owners_raw].
  split; apply str_contains_occurs; discriminate.
Qed.

Lemma lower_char_ascii_lower (c : ascii) :
  lower_char (ascii_lower c) = lower_char c.
Proof.
  destruct c as [b0 b1 b2 b3 b4 b5 b6 b7].
  destruct b0, b1, b2, b3, b4, b5, b6, b7; vm_compute; reflexivity.
Qed.

Lemma starts_with_ascii_lower (kw s : pystr) :
  starts_with f_I kw (map ascii_lower s) = starts_with f_I kw s.
Proof.
  revert s. induction kw as [|k kw IH]; intros [|c s]; try reflexivity.
  cbn [map starts_with]. rewrite IH.
  unfold char_eq. cbn [ignorecase f_I]. now rewrite lower_char_ascii_lower.
Qed.

Lemma occurs_ascii_lower (kw s : pystr) :
  occurs f_I kw (map ascii_lower s) = occurs f_I kw s.
Proof.
  unfold occurs. rewrite length_map.
  apply existsb_ext_eq. intro p.
  rewrite skipn_map. apply starts_with_ascii_lower.
Qed.

(** X12: The classification does not depend on the case of the ASCII
    letters of the raw text: two texts that differ only in the case of
    letters A to Z get the same two flags. *)
Theorem classification_ignores_ascii_case :
  forall (raw raw' : pystr) (c : option pystr),
    map ascii_lower raw = map ascii_lower raw' ->
    is_government {| owners_raw := Some raw; communidade := c |}
    = is_government {| owners_raw := Some raw'; communidade := c |}
    /\ is_comunidade {| owners_raw := Some raw; communidade := c |}
       = is_comunidade {| owners_raw := Some raw'; communidade := c |}.
Proof.
  intros raw raw' c Hcase.
  destruct (classification_is_keyword_occurrence raw c) as [-> ->].
  destruct (classification_is_keyword_occurrence raw' c) as [-> ->].
  split; apply existsb_ext_eq; intro kw;
    rewrite <- (occurs_ascii_lower _ raw), <- (occurs_ascii_lower _ raw');
    now rewrite Hcase.
Qed.

Lemma classification_ignores_ascii_case_witness :
  is_government
    {| owners_raw := Some (str "FOREST dept"); communidade := None |}
  = is_government
      {| owners_raw := Some (str "Forest Dept"); communidade := None |}.
Proof.
  apply (proj1 (classification_ignores_ascii_case
                  (str "FOREST dept") (str "Forest Dept") None eq_refl)).
Defined.

(** *** The area text *)

Lemma not_numeric_match (c : ascii) :
  atom_match no_flags not_numeric c = negb (isdigit c || Ascii.eqb c ".").
Proof.
  destruct c as [b0 b1 b2 b3 b4 b5 b6 b7].
  destruct b0, b1, b2, b3, b4, b5, b6, b7; vm_compute; reflexivity.
Qed.

Lemma replace_runs_filter (s : pystr) :
  replace_runs no_flags not_numeric (fun _ => 1) [] 0 s
  = filter (fun c => isdigit c || Ascii.eqb c ".") s.
Proof.
  induction s as [|c s IH]; [reflexivity|].
  cbn [replace_runs filter]. rewrite not_numeric_match.
  destruct (isdigit c || Ascii.eqb c "."); cbn [negb app Nat.sub];
    now rewrite IH.
Qed.

(** X13: Cleaning an area text keeps its digits and dots, in order, and drops
    every other character: a sign, a thousands separator, an exponent
    letter or a unit. *)
Theorem clean_area_text_keeps_digits_and_dots :
  forall s : pystr,
    clean_area_text s = filter (fun c => isdigit c || Ascii.eqb c ".") s.
Proof.
  intro s. unfold clean_area_text, Re.sub.
  rewrite (sub_loop_runs no_flags s not_numeric (fun _ => 1) (One not_numeric) []).
  - apply replace_runs_filter.
  - intros p c Hc Ha. cbn [Re.m]. now rewrite Hc, Ha.
  - cbn [Re.m].
    replace (nth_error s (length s)) with (@None ascii); [reflexivity|].
    symmetry. apply nth_error_None. lia.
  - intros p c Hc Ha. split; [lia|]. cbn [Re.m]. rewrite Hc, Ha.
    rewrite Nat.add_1_r. eauto.
  - lia.
  - unfold fuel_needed, loop_fuel. lia.
Qed.

End ClassifyMore.

(* ================================================================= *)
(** ** The extractor: separators of the tenants list *)

Module TenantSeparators.

Import NameFacts ExtractorFacts LoopFacts ExtractorMore ExtractorLabels.

Lemma slice_nth (t : pystr) (i j : nat) (c : ascii) :
  In c (slice i j t) ->
  exists q, i <= q /\ q < j /\ nth_error t q = Some c.
Proof.
  unfold slice. intro Hc. apply In_nth_error in Hc as [n Hn].
  assert (Hlt : n < j - i).
  { assert (n < length (firstn (j - i) (skipn i t)))
      by (apply nth_error_Some; congruence).
    rewrite length_firstn in H. lia. }
  rewrite nth_error_firstn in Hn.
  destruct (n <? j - i) eqn:Hb; [|apply Nat.ltb_ge in Hb; lia].
  rewrite nth_error_skipn in Hn.
  exists (i + n). repeat split; [lia|lia|exact Hn].
Qed.

Section Pieces.

Variable fl : flags.
Variable t : pystr.
Variable r : regex.
Variable sep : ascii -> bool.

Hypothesis sep_hits :
  forall q c, nth_error t q = Some c -> sep c = true ->
              Re.m fl t r q None <> [].
Hypothesis advances :
  forall p eg, p <= length t -> In eg (Re.m fl t r p None) -> p < fst eg.

Lemma unmatched_free (i j : nat) :
  (forall q, i <= q -> q < j -> Re.m fl t r q None = []) ->
  Forall (fun c => sep c = false) (slice i j t).
Proof.
  intro Hnil. apply Forall_forall. intros c Hc.
  apply slice_nth in Hc as (q & Hq1 & Hq2 & Hq).
  destruct (sep c) eqn:Hs; [|reflexivity].
  exfalso. apply (sep_hits q c Hq Hs). now apply Hnil.
Qed.

(** No piece of the split holds a separator character. *)
Lemma split_loop_free (fuel : nat) :
  forall i,
    i <= length t ->
    fuel_needed t i false <= fuel ->
    Forall (Forall (fun c => sep c = false)) (split_loop fl t r fuel i false).
Proof.
  induction fuel as [|fuel IH]; intros i Hi Hfuel.
  - unfold fuel_needed in Hfuel. lia.
  - cbn [split_loop].
    destruct (search_at fl t r i false) as [mt|] eqn:Hs.
    + destruct (search_at_leftmost _ _ _ _ _ Hi Hs)
        as (Hlo & Hhi & Hnil & rest & Hm).
      destruct (ReFacts.fuel_needed_next _ _ _ _ _ _ Hi Hs) as [He Hn].
      assert (Hadv : m_start mt < m_end mt).
      { apply (advances _ (m_end mt, m_group mt) Hhi).
        rewrite Hm. left; reflexivity. }
      replace (m_end mt =? m_start mt) with false in *
        by (symmetry; apply Nat.eqb_neq; lia).
      constructor; [now apply unmatched_free|].
      apply IH; [exact He|lia].
    + constructor; [|constructor].
      rewrite <- (firstn_all (skipn i t)), length_skipn.
      change (firstn (length t - i) (skipn i t)) with (slice i (length t) t).
      apply unmatched_free. intros q Hq1 Hq2.
      apply (search_at_none _ _ _ _ Hs); lia.
Qed.

End Pieces.

Lemma tenant_sep_hits (t : pystr) (q : nat) (c : ascii) :
  nth_error t q = Some c -> is_list_separator c = true ->
  Re.m no_flags t pat_tenant_sep q None <> [].
Proof.
  intros Hc Hs. unfold pat_tenant_sep. cbn [Re.m cat fold_right].
  rewrite Hc.
  assert (Ha : atom_match no_flags (ASet false [CChar ","; CChar ";"]) c = true).
  { unfold is_list_separator in Hs. cbn. unfold char_eq. cbn.
    now rewrite orb_false_r. }
  rewrite Ha. cbn [flat_map fst snd]. unfold ws_star. cbn [Re.m].
  rewrite Nat.sub_0_r, ReFacts.rev_seq_succ. cbn [map flat_map fst snd Re.m app].
  discriminate.
Qed.

Lemma tenant_sep_advances (t : pystr) (p : nat) (eg : nat * caps) :
  p <= length t -> In eg (Re.m no_flags t pat_tenant_sep p None) -> p < fst eg.
Proof.
  intros Hp Hin.
  destruct (ReFacts.m_sound no_flags t pat_tenant_sep p None eg Hp Hin)
    as (Hlo & Hhi & Hden).
  assert (Hlen : 1 <= length (slice p (fst eg) t)).
  { unfold pat_tenant_sep in Hden. cbn [denote cat fold_right] in Hden.
    destruct Hden as [(w1 & w2 & -> & (c & -> & _) & _)
                     |(w1 & w2 & -> & (Hw & _) & _)].
    - cbn. lia.
    - rewrite length_app. lia. }
  unfold slice in Hlen. rewrite length_firstn in Hlen. lia.
Qed.

Lemma tenant_pieces_free (st : pystr) :
  Forall (Forall (fun c => is_list_separator c = false))
         (Re.split no_flags pat_tenant_sep st).
Proof.
  unfold Re.split.
  apply (split_loop_free no_flags st pat_tenant_sep is_list_separator).
  - apply tenant_sep_hits.
  - apply tenant_sep_advances.
  - lia.
  - unfold fuel_needed, loop_fuel. lia.
Qed.

(** X14: When the tenants section has no numbered marker, no returned tenant
    name holds a comma or a semicolon. *)
Theorem unnumbered_tenants_have_no_separator :
  forall raw st : pystr,
    section_text pat_tenants (strip raw) = Some st ->
    has_numbered st = false ->
    exists r,
      parse_owners_raw_field (PyStr raw) = Ok r
      /\ Forall (Forall (fun c => is_list_separator c = false))
                (tenant_names r).
Proof.
  intros raw st Hst Hnum. eexists. split; [apply parse_ok|].
  cbn [tenant_names fragments_of]. unfold tenant_fragments, tenant_parts.
  rewrite Hst, Hnum.
  apply Forall_forall. intros n Hn.
  apply collect_names_incl in Hn as (part & Hpart & ->).
  apply Forall_forall. intros c Hc.
  apply clean_name_incl in Hc as [Hc| ->]; [|reflexivity].
  apply strip_incl in Hc.
  pose proof (tenant_pieces_free st) as Hfree.
  rewrite Forall_forall in Hfree. specialize (Hfree part Hpart).
  rewrite Forall_forall in Hfree. exact (Hfree c Hc).
Qed.

Lemma unnumbered_tenants_have_no_separator_witness :
  exists r,
    parse_owners_raw_field (PyStr (str "Tenants names: Ravi Nair, Asha; Suresh")) = Ok r
    /\ Forall (Forall (fun c => is_list_separator c = false)) (tenant_names r).
Proof.
  apply (unnumbered_tenants_have_no_separator
           (str "Tenants names: Ravi Nair, Asha; Suresh")
           (str "Ravi Nair, Asha; Suresh")).
  - vm_compute. reflexivity.
  - vm_compute. reflexivity.
Defined.

End TenantSeparators.

(* ================================================================= *)
(** ** Occupants without markers, and the path of the cleaned file *)

Module LoaderFacts.

Import NameFacts ExtractorFacts LoopFacts ExtractorMore ExtractorLabels.

(** X15: When the occupants section has no numbered marker it is taken as one
    name, commas and all: at most one occupant is returned, and it is the
    cleaned section text. *)
Theorem unnumbered_occupants_are_one_name :
  forall raw st : pystr,
    section_text pat_occupants (strip raw) = Some st ->
    has_numbered st = false ->
    exists r,
      parse_owners_raw_field (PyStr raw) = Ok r
      /\ occupant_count r <= 1
      /\ (occupant_names r = [] \/ occupant_names r = [clean_name st]).
Proof.
  intros raw st Hst Hnum. eexists. split; [apply parse_ok|].
  cbn [occupant_names occupant_count fragments_of].
  unfold occupant_fragments, occupant_parts. rewrite Hst, Hnum.
  assert (Hfix : strip st = st).
  { unfold section_text in Hst.
    destruct (Re.search f_IS pat_occupants (strip raw)) as [mt|];
      [|discriminate].
    destruct (group1 (strip raw) mt) as [g|]; [|discriminate].
    cbn in Hst. injection Hst as <-. apply strip_strip. }
  unfold collect_names. cbn [fold_left]. unfold add_part. rewrite Hfix.
  destruct (nonempty st); [|cbn; auto].
  destruct (accepts [] (clean_name st)); cbn; auto.
Qed.

Lemma unnumbered_occupants_are_one_name_witness :
  exists r,
    parse_owners_raw_field (PyStr (str "Occupants Names: Jose, Maria and Ana")) = Ok r
    /\ occupant_count r <= 1.
Proof.
  destruct (unnumbered_occupants_are_one_name
              (str "Occupants Names: Jose, Maria and Ana")
              (str "Jose, Maria and Ana")) as (r & Hr & Hc & _).
  - vm_compute. reflexivity.
  - vm_compute. reflexivity.
  - exists r. auto.
Defined.

(** *** The path of the cleaned file *)

Lemma replace_from_length (old new : pystr) (s : pystr) :
  length old <= length new ->
  1 <= length old ->
  forall k, length s <= length (replace_from old new k s) + k.
Proof.
  intros Hlen Hold.
  induction s as [|c s IH]; intro k; [cbn; lia|].
  cbn [replace_from]. destruct k as [|k].
  - destruct (starts_with no_flags old (c :: s)).
    + rewrite length_app. specialize (IH (length old - 1)). cbn [length].
      lia.
    + specialize (IH 0). cbn [length]. lia.
  - specialize (IH k). cbn [length]. lia.
Qed.

Lemma starts_with_length (fl : flags) (kw s : pystr) :
  starts_with fl kw s = true -> length kw <= length s.
Proof.
  revert s. induction kw as [|k kw IH]; intros s H.
  - cbn. lia.
  - destruct s as [|c s]; [discriminate H|].
    cbn [starts_with] in H. apply andb_true_iff in H as [_ H].
    apply IH in H. cbn [length]. lia.
Qed.

Lemma replace_grows (old new s : pystr) :
  length old < length new ->
  1 <= length old ->
  (exists p, starts_with no_flags old (skipn p s) = true /\ p < length s) ->
  length s < length (py_replace old new s).
Proof.
  intros Hlen Hold. unfold py_replace.
  induction s as [|c s IH]; intros (p & Hp & Hlt); [cbn in Hlt; lia|].
  cbn [replace_from].
  destruct (starts_with no_flags old (c :: s)) eqn:Hs.
  - rewrite length_app.
    assert (Hle : length old <= length new) by lia.
    pose proof (replace_from_length old new s Hle Hold (length old - 1)).
    cbn [length]. lia.
  - destruct p as [|p]; [cbn in Hp; congruence|].
    cbn [skipn] in Hp. cbn [length] in *.
    assert (p < length s).
    { destruct (Nat.lt_ge_cases p (length s)) as [H|H]; [exact H|].
      rewrite skipn_all2 in Hp by lia.
      apply starts_with_length in Hp. cbn in Hp. lia. }
    assert (length s < length (replace_from old new 0 s))
      by (apply IH; eauto).
    lia.
Qed.

Lemma replace_absent (old new s : pystr) :
  (forall p, starts_with no_flags old (skipn p s) = false) ->
  py_replace old new s = s.
Proof.
  unfold py_replace. induction s as [|c s IH]; intro H; [reflexivity|].
  cbn [replace_from]. rewrite (H 0 : starts_with no_flags old (c :: s) = false).
  f_equal. apply IH. intro p. exact (H (S p)).
Qed.

(** X16: The cleaned file is written to the path of the input itself exactly
    when the path does not hold .csv (in this case): only then does
    cleaning overwrite its input, which the loader then removes. *)
Theorem temp_file_is_input_iff_no_csv :
  forall file_path : pystr,
    temp_file file_path = file_path
    <-> occurs no_flags (str ".csv") file_path = false.
Proof.
  intro path. unfold temp_file. split.
  - intro Heq. apply not_true_is_false. intro Hocc.
    unfold occurs in Hocc. apply existsb_exists in Hocc as (p & Hp & Hs).
    apply in_seq in Hp.
    assert (Hlt : p < length path).
    { destruct (Nat.lt_ge_cases p (length path)) as [H|H]; [exact H|].
      rewrite skipn_all2 in Hs by lia. discriminate Hs. }
    assert (Hgrow : length path
                    < length (py_replace (str ".csv") (str "_cleaned.csv") path))
      by (apply replace_grows; [cbn; lia|cbn; lia|eauto]).
    rewrite Heq in Hgrow. lia.
  - intro Hocc. apply replace_absent. intro p.
    destruct (Nat.le_gt_cases p (length path)) as [Hp|Hp].
    + apply not_true_is_false. intro Hs.
      rewrite (ExtractorLabels.occurs_at _ _ _ p Hp Hs) in Hocc. discriminate.
    + rewrite skipn_all2 by lia. reflexivity.
Qed.

Lemma temp_file_is_input_iff_no_csv_witness :
  temp_file (str "plots.txt") = str "plots.txt".
Proof.
  apply (proj2 (temp_file_is_input_iff_no_csv (str "plots.txt"))).
  reflexivity.
Defined.

End LoaderFacts.
